(** * crynux-node: connection pool and node lifecycle manager

    A shallow embedding of
      - [crynux_server/models/node.py]            (status enumerations),
      - [crynux_server/node_manager/state_manager.py] (NodeStateManager),
      - [crynux_server/contracts/w3_pool.py]      (W3Guard, W3Pool),
    together with the properties of these modules.

    Coroutines are modelled as state transformers.  Everything a coroutine
    awaits that is outside of these modules (the relay, the chain RPC, the
    transports) is an input of the model: a scripted answer stored in the
    world, never an assumption. *)

From Stdlib Require Import ZArith String Ascii List Bool Lia.
From Stdlib Require Import Floats.PrimFloat.
From stdpp Require Import base decidable option list gmap sets strings pretty.

Local Open Scope string_scope.
Local Open Scope Z_scope.

(** ** Python exceptions *)

(** The exception classes that the modelled code raises, catches or tests
    for.  [CancelledError] stands for [anyio.get_cancelled_exc_class()];
    it and [KeyboardInterrupt] derive from [BaseException] only. *)
Inductive exn : Type :=
| AssertionError (msg : string)
| ValueError (msg : string)
| KeyError (key : nat)
| RelayError (msg : string)
| ConnectionClosed (msg : string)
| OtherException (msg : string)
| CancelledError
| KeyboardInterrupt.

#[global] Instance exn_eq_dec : EqDecision exn.
Proof. solve_decision. Defined.

(** [str(e)] *)
Definition exn_str (e : exn) : string :=
  match e with
  | AssertionError msg | ValueError msg | RelayError msg
  | ConnectionClosed msg | OtherException msg => msg
  | KeyError key => pretty key
  | CancelledError | KeyboardInterrupt => ""
  end.

(** [isinstance(e, Exception)] *)
Definition is_Exception (e : exn) : bool :=
  match e with
  | CancelledError | KeyboardInterrupt => false
  | _ => true
  end.

(** [isinstance(e, ConnectionClosed)] *)
Definition is_ConnectionClosed (e : exn) : bool :=
  match e with
  | ConnectionClosed _ => true
  | _ => false
  end.

(** ** models/node.py *)

Inductive ChainNodeStatus : Type :=
| QUIT | AVAILABLE | BUSY | PENDING_PAUSE | PENDING_QUIT | PAUSED.

(** The [IntEnum] value of a chain status. *)
Definition ChainNodeStatus_value (s : ChainNodeStatus) : Z :=
  match s with
  | QUIT => 0 | AVAILABLE => 1 | BUSY => 2
  | PENDING_PAUSE => 3 | PENDING_QUIT => 4 | PAUSED => 5
  end.

Inductive NodeStatus : Type :=
| Init | Running | Paused | Stopped | Error | PendingPause | PendingStop.

#[global] Instance ChainNodeStatus_eq_dec : EqDecision ChainNodeStatus.
Proof. solve_decision. Defined.

#[global] Instance NodeStatus_eq_dec : EqDecision NodeStatus.
Proof. solve_decision. Defined.

(** [convert_node_status].  The argument is a member of the enumeration
    (pydantic validates [NodeInfo.status]), so the final [raise ValueError]
    branch of the source has no input that reaches it. *)
Definition convert_node_status (chain_status : ChainNodeStatus) : NodeStatus :=
  match chain_status with
  | QUIT => Stopped
  | AVAILABLE | BUSY => Running
  | PAUSED => Paused
  | PENDING_PAUSE => PendingPause
  | PENDING_QUIT => PendingStop
  end.

Module NodeInfo.
Record t : Type := mk {
  address : string;
  gpu_name : string;
  gpu_vram : Z;
  in_use_model_ids : list string;
  model_ids : list string;
  qos_score : float;
  staking_score : float;
  prob_weight : float;
  status : ChainNodeStatus;
  version : string
}.
End NodeInfo.

Module NodeState.
Record t : Type := mk {
  status : NodeStatus;
  message : string;
  init_message : string
}.
End NodeState.

Module NodeScoreState.
Record t : Type := mk {
  qos_score : float;
  staking_score : float;
  prob_weight : float
}.
End NodeScoreState.

(** Modelled from the spec: [models.TxStatus] and [models.TxState] are
    declared in a module that is not part of the sources at hand; the
    specification gives [TxState {status ∈ {None, Pending, Success, Error},
    message}]. *)
Inductive TxStatus : Type :=
| TxNone | TxPending | TxSuccess | TxError.

#[global] Instance TxStatus_eq_dec : EqDecision TxStatus.
Proof. solve_decision. Defined.

Module TxState.
Record t : Type := mk {
  status : TxStatus;
  message : string
}.
End TxState.

(** ** Coroutine results *)

(** What running a coroutine for a bounded number of loop iterations gives:
    a value, a raised exception, or [Unfinished] when the coroutine is still
    inside one of its [while True] loops once the iterations are used up. *)
Inductive result (A : Type) : Type :=
| Return (a : A)
| Raise (e : exn)
| Unfinished.

Arguments Return {A} a.
Arguments Raise {A} e.
Arguments Unfinished {A}.

(** ** node_manager/state_manager.py *)

Module Manager.

(** Requests sent to the relay, in the order they are made. *)
Inductive RelayCall : Type :=
| node_get_node_info_call
| get_balance_call
| node_join_call (gpu_name : string) (gpu_vram : Z) (version : string)
                 (model_ids : list string) (staking_amount : Z)
| node_quit_call
| node_pause_call
| node_resume_call.

(** The relay is a collaborator: what it answers is an input.  The [n]-th
    [node_get_node_info] request is answered by [node_info_answer n]; every
    request may fail with an exception. *)
Record Relay : Type := {
  node_info_answer : nat -> exn + NodeInfo.t;
  balance_answer : exn + Z;
  join_answer : option exn;
  quit_answer : option exn;
  pause_answer : option exn;
  resume_answer : option exn
}.

(** Modelled from the spec: [ManagerStateCache] is not part of the sources
    at hand (only the abstract [StateCache] is).  The specification gives a
    holder of three values, [NodeState], [TxState] and [NodeScoreState],
    whose setters overwrite and whose getters read the latest value. *)
Record ManagerStateCache : Type := {
  node_state : NodeState.t;
  tx_state : TxState.t;
  node_score_state : NodeScoreState.t
}.

(** Calls of the cache setters, in the order they are made. *)
Inductive CacheWrite : Type :=
| set_node_state_call (status : NodeStatus)
| set_tx_state_call (status : TxStatus) (message : string)
| set_node_score_state_call (state : NodeScoreState.t).

(** [anyio.CancelScope], as far as the manager looks at it. *)
Record CancelScope : Type := {
  cancel_called : bool
}.

Record World : Type := {
  (* NodeStateManager and the cache it holds *)
  state_cache : ManagerStateCache;
  _cancel_scope : option CancelScope;
  (* configuration and collaborators *)
  config_staking_amount : Z;
  download_model_ids : list string;
  relay : Relay;
  (* what has been observed so far *)
  polls : nat;
  relay_calls : list RelayCall;
  cache_writes : list CacheWrite
}.

Definition M (A : Type) : Type := World -> result A * World.

Definition ret {A} (a : A) : M A := fun w => (Return a, w).

Definition raise {A} (e : exn) : M A := fun w => (Raise e, w).

Definition bind {A B} (c : M A) (k : A -> M B) : M B := fun w =>
  match c w with
  | (Return a, w') => k a w'
  | (Raise e, w') => (Raise e, w')
  | (Unfinished, w') => (Unfinished, w')
  end.

Notation "x <- c1 ;; c2" := (bind c1 (fun x => c2))
  (at level 100, c1 at next level, right associativity).
Notation "c1 ;; c2" := (bind c1 (fun _ => c2))
  (at level 100, right associativity).

(** [assert cond, msg] *)
Definition assert_ (cond : bool) (msg : string) : M unit :=
  if cond then ret tt else raise (AssertionError msg).

(** *** The state cache *)

Definition with_cache (w : World) (c : ManagerStateCache) (wr : CacheWrite) : World :=
  {| state_cache := c;
     _cancel_scope := _cancel_scope w;
     config_staking_amount := config_staking_amount w;
     download_model_ids := download_model_ids w;
     relay := relay w;
     polls := polls w;
     relay_calls := relay_calls w;
     cache_writes := (cache_writes w ++ [wr])%list |}.

Definition get_node_state : M NodeState.t :=
  fun w => (Return (node_state (state_cache w)), w).

Definition get_tx_state : M TxState.t :=
  fun w => (Return (tx_state (state_cache w)), w).

(** Modelled from the spec: the setter of the node state, called with a
    status only; it overwrites the cached value. *)
Definition set_node_state (status : NodeStatus) : M unit := fun w =>
  let c := state_cache w in
  (Return tt,
   with_cache w
     {| node_state := NodeState.mk status "" "";
        tx_state := tx_state c;
        node_score_state := node_score_state c |}
     (set_node_state_call status)).

(** Modelled from the spec: the setter of the transaction state, called
    with a status and an optional message. *)
Definition set_tx_state (status : TxStatus) (message : string) : M unit := fun w =>
  let c := state_cache w in
  (Return tt,
   with_cache w
     {| node_state := node_state c;
        tx_state := TxState.mk status message;
        node_score_state := node_score_state c |}
     (set_tx_state_call status message)).

(** Modelled from the spec: the setter of the score state. *)
Definition set_node_score_state (state : NodeScoreState.t) : M unit := fun w =>
  let c := state_cache w in
  (Return tt,
   with_cache w
     {| node_state := node_state c;
        tx_state := tx_state c;
        node_score_state := state |}
     (set_node_score_state_call state)).

(** *** The relay *)

Definition with_relay_call (w : World) (call : RelayCall) (polls' : nat) : World :=
  {| state_cache := state_cache w;
     _cancel_scope := _cancel_scope w;
     config_staking_amount := config_staking_amount w;
     download_model_ids := download_model_ids w;
     relay := relay w;
     polls := polls';
     relay_calls := (relay_calls w ++ [call])%list;
     cache_writes := cache_writes w |}.

Definition relay_node_get_node_info : M NodeInfo.t := fun w =>
  let w' := with_relay_call w node_get_node_info_call (S (polls w)) in
  match node_info_answer (relay w) (polls w) with
  | inl e => (Raise e, w')
  | inr info => (Return info, w')
  end.

Definition relay_get_balance : M Z := fun w =>
  let w' := with_relay_call w get_balance_call (polls w) in
  match balance_answer (relay w) with
  | inl e => (Raise e, w')
  | inr balance => (Return balance, w')
  end.

Definition relay_command (call : RelayCall) (answer : Relay -> option exn) : M unit := fun w =>
  let w' := with_relay_call w call (polls w) in
  match answer (relay w) with
  | Some e => (Raise e, w')
  | None => (Return tt, w')
  end.

Definition relay_node_join (gpu_name : string) (gpu_vram : Z) (version : string)
    (model_ids : list string) (staking_amount : Z) : M unit :=
  relay_command (node_join_call gpu_name gpu_vram version model_ids staking_amount)
                join_answer.

Definition relay_node_quit : M unit := relay_command node_quit_call quit_answer.
Definition relay_node_pause : M unit := relay_command node_pause_call pause_answer.
Definition relay_node_resume : M unit := relay_command node_resume_call resume_answer.

(** *** Configuration and the model cache *)

(** [get_staking_amount()] *)
Definition get_staking_amount : M Z :=
  fun w => (Return (config_staking_amount w), w).

(** The number of wei in [amount] ether, for an integer amount. *)
Definition to_wei_ether (amount : Z) : Z := amount * 10 ^ 18.

(** The bounds [MIN_WEI] and [MAX_WEI] of the library. *)
Definition MIN_WEI : Z := 0.
Definition MAX_WEI : Z := 2 ^ 256 - 1.

(** [Web3.to_wei(amount, "ether")] on an integer amount: the library
    computes the product and refuses a result outside of its bounds. *)
Definition to_wei (amount : Z) : M Z :=
  let result_value := to_wei_ether amount in
  if (result_value <? MIN_WEI) || (MAX_WEI <? result_value)
  then raise (ValueError "Resulting wei value must be between 1 and 2**256 - 1")
  else ret result_value.

(** [[model.model.to_model_id() for model in await load_all()]] *)
Definition load_all_model_ids : M (list string) :=
  fun w => (Return (download_model_ids w), w).

(** [sep.join(parts)] *)
Fixpoint join (sep : string) (parts : list string) : string :=
  match parts with
  | [] => ""
  | [p] => p
  | p :: rest => p +:+ sep +:+ join sep rest
  end.

(** [".".join(str(v) for v in version)] *)
Definition version_string (version : list Z) : string :=
  join "." (map pretty version).

(** *** NodeStateManager *)

Definition _get_node_status : M NodeStatus :=
  node_info <- relay_node_get_node_info ;;
  let remote_status := NodeInfo.status node_info in
  let local_status := convert_node_status remote_status in
  ret local_status.

Definition _wait_for_running : M unit :=
  local_status <- _get_node_status ;;
  assert_ (bool_decide (local_status = Running))
          "Node status on chain is not running." ;;
  set_node_state local_status ;;
  set_tx_state TxSuccess "".

(** The [while True] loop of [_wait_for_stop]; [fuel] bounds the number of
    iterations that are run. *)
Fixpoint _wait_for_stop_loop (fuel : nat) (pending : bool) : M unit :=
  match fuel with
  | O => fun w => (Unfinished, w)
  | S fuel' =>
      local_status <- _get_node_status ;;
      assert_ (bool_decide (local_status ∈ [Stopped; PendingStop]))
              "Node status on chain is not stopped or pending." ;;
      set_node_state local_status ;;
      (if pending then set_tx_state TxSuccess "" else ret tt) ;;
      if bool_decide (local_status = Stopped) then ret tt
      else _wait_for_stop_loop fuel' false
  end.

Definition _wait_for_stop (fuel : nat) : M unit :=
  _wait_for_stop_loop fuel true.

Fixpoint _wait_for_pause_loop (fuel : nat) (pending : bool) : M unit :=
  match fuel with
  | O => fun w => (Unfinished, w)
  | S fuel' =>
      local_status <- _get_node_status ;;
      assert_ (bool_decide (local_status ∈ [Paused; PendingPause]))
              "Node status on chain is not paused or pending" ;;
      set_node_state local_status ;;
      (if pending then set_tx_state TxSuccess "" else ret tt) ;;
      if bool_decide (local_status = Paused) then ret tt
      else _wait_for_pause_loop fuel' false
  end.

Definition _wait_for_pause (fuel : nat) : M unit :=
  _wait_for_pause_loop fuel true.

(** The body of the [while True] loop of [start_sync], up to the sleep. *)
Definition sync_tick : M unit :=
  node_info <- relay_node_get_node_info ;;
  let remote_status := NodeInfo.status node_info in
  let local_status := convert_node_status remote_status in
  current <- get_node_state ;;
  let current_status := NodeState.status current in
  (if bool_decide (local_status ≠ current_status)
   then set_node_state local_status else ret tt) ;;
  let node_score_state :=
    NodeScoreState.mk (NodeInfo.qos_score node_info)
                      (NodeInfo.staking_score node_info)
                      (NodeInfo.prob_weight node_info) in
  set_node_score_state node_score_state.

(** [ticks] iterations of the loop of [start_sync]; after them the
    coroutine is asleep, waiting for the next tick or for cancellation. *)
Fixpoint start_sync_loop (ticks : nat) : M unit :=
  match ticks with
  | O => fun w => (Unfinished, w)
  | S ticks' => sync_tick ;; start_sync_loop ticks'
  end.

Definition set_cancel_scope (scope : option CancelScope) : M unit := fun w =>
  (Return tt,
   {| state_cache := state_cache w;
      _cancel_scope := scope;
      config_staking_amount := config_staking_amount w;
      download_model_ids := download_model_ids w;
      relay := relay w;
      polls := polls w;
      relay_calls := relay_calls w;
      cache_writes := cache_writes w |}).

(** [start_sync]: the [finally] clause runs when the loop is left by an
    exception; while the loop runs the scope stays registered. *)
Definition start_sync (ticks : nat) : M unit := fun w =>
  match _cancel_scope w with
  | Some _ => (Raise (AssertionError "NodeStateManager has started synchronizing."), w)
  | None =>
      match (set_cancel_scope (Some {| cancel_called := false |}) ;;
             start_sync_loop ticks) w with
      | (Unfinished, w') => (Unfinished, w')
      | (r, w') => (r, snd (set_cancel_scope None w'))
      end
  end.

Definition stop_sync : M unit := fun w =>
  match _cancel_scope w with
  | Some scope =>
      if negb (cancel_called scope)
      then set_cancel_scope (Some {| cancel_called := true |}) w
      else (Return tt, w)
  | None => (Return tt, w)
  end.

(** [_wrap_tx_error]: the context manager around every lifecycle
    operation.  Logging has no effect on the state. *)
Definition _wrap_tx_error {A} (body : M A) : M A := fun w =>
  match body w with
  | (Raise e, w') =>
      match e with
      | KeyboardInterrupt => (Raise e, w')
      | CancelledError => (Raise e, w')
      | RelayError _ | AssertionError _ | ValueError _ =>
          (Raise e, snd (set_tx_state TxError (exn_str e) w'))
      | _ => (Raise e, w')
      end
  | r => r
  end.

(** [start]; the value returned is the [wait] coroutine. *)
Definition start (gpu_name : string) (gpu_vram : Z) (version : list Z) : M (M unit) :=
  _wrap_tx_error (
    node_st <- get_node_state ;;
    let node_status := NodeState.status node_st in
    tx_st <- get_tx_state ;;
    let tx_status := TxState.status tx_st in
    assert_ (bool_decide (node_status = Stopped))
            "Cannot start node. Node is not stopped." ;;
    assert_ (bool_decide (tx_status ≠ TxPending))
            "Cannot start node. Last transaction is in pending." ;;
    amount <- get_staking_amount ;;
    staking_amount <- to_wei amount ;;
    balance <- relay_get_balance ;;
    if balance <? staking_amount
    then raise (ValueError "Node token balance is not enough to join.")
    else
      model_ids <- load_all_model_ids ;;
      relay_node_join gpu_name gpu_vram (version_string version)
                      model_ids staking_amount ;;
      set_tx_state TxPending "") ;;
  ret (_wrap_tx_error _wait_for_running).

(** [stop]; its [wait] runs the loop of [_wait_for_stop]. *)
Definition stop : M (nat -> M unit) :=
  _wrap_tx_error (
    node_st <- get_node_state ;;
    let node_status := NodeState.status node_st in
    tx_st <- get_tx_state ;;
    let tx_status := TxState.status tx_st in
    assert_ (bool_decide (node_status = Running))
            "Cannot stop node. Node is not running." ;;
    assert_ (bool_decide (tx_status ≠ TxPending))
            "Cannot start node. Last transaction is in pending." ;;
    relay_node_quit ;;
    set_tx_state TxPending "") ;;
  ret (fun fuel => _wrap_tx_error (_wait_for_stop fuel)).

Definition pause : M (nat -> M unit) :=
  _wrap_tx_error (
    node_st <- get_node_state ;;
    let node_status := NodeState.status node_st in
    tx_st <- get_tx_state ;;
    let tx_status := TxState.status tx_st in
    assert_ (bool_decide (node_status = Running))
            "Cannot stop node. Node is not running." ;;
    assert_ (bool_decide (tx_status ≠ TxPending))
            "Cannot start node. Last transaction is in pending." ;;
    relay_node_pause ;;
    set_tx_state TxPending "") ;;
  ret (fun fuel => _wrap_tx_error (_wait_for_pause fuel)).

Definition resume : M (M unit) :=
  _wrap_tx_error (
    node_st <- get_node_state ;;
    let node_status := NodeState.status node_st in
    tx_st <- get_tx_state ;;
    let tx_status := TxState.status tx_st in
    assert_ (bool_decide (node_status = Paused))
            "Cannot stop node. Node is not running." ;;
    assert_ (bool_decide (tx_status ≠ TxPending))
            "Cannot start node. Last transaction is in pending." ;;
    relay_node_resume ;;
    set_tx_state TxPending "") ;;
  ret (_wrap_tx_error _wait_for_running).

(** The write that [_wrap_tx_error] makes when it records an error. *)
Definition record_tx_error (msg : string) (w : World) : World :=
  snd (set_tx_state TxError msg w).

(** Readers of the cached statuses. *)
Definition node_status_of (w : World) : NodeStatus :=
  NodeState.status (node_state (state_cache w)).

Definition tx_status_of (w : World) : TxStatus :=
  TxState.status (tx_state (state_cache w)).

(** The world after one observation of a wait loop that passes the
    assertion: the poll is made, the status is written to the cache and,
    while [pending], the transaction status is set to [Success]. *)
Definition observe (local_status : NodeStatus) (pending : bool) (w : World) : World :=
  let w1 := with_relay_call w node_get_node_info_call (S (polls w)) in
  let w2 := snd (set_node_state local_status w1) in
  if pending then snd (set_tx_state TxSuccess "" w2) else w2.

(** The world after the observations [statuses], made in this order. *)
Fixpoint observe_all (statuses : list NodeStatus) (pending : bool) (w : World) : World :=
  match statuses with
  | [] => w
  | s :: rest => observe_all rest false (observe s pending w)
  end.

(** The cache writes of a wait that observes [statuses]: every status is
    written, and the transaction status is set to [Success] right after
    the first one. *)
Definition wait_writes (statuses : list NodeStatus) : list CacheWrite :=
  match statuses with
  | [] => []
  | s :: rest =>
      set_node_state_call s :: set_tx_state_call TxSuccess ""
        :: map set_node_state_call rest
  end.

(** The cache writes of one tick of the sync loop that reads [node_info]
    while [current_status] is cached. *)
Definition tick_writes (current_status : NodeStatus) (node_info : NodeInfo.t)
    : list CacheWrite :=
  let local_status := convert_node_status (NodeInfo.status node_info) in
  (if bool_decide (local_status = current_status) then []
   else [set_node_state_call local_status]) ++
  [set_node_score_state_call
     (NodeScoreState.mk (NodeInfo.qos_score node_info)
                        (NodeInfo.staking_score node_info)
                        (NodeInfo.prob_weight node_info))].

(** [try_start].  Every path through the body of its [while True] loop
    ends in a [break], so the body runs once; [interval] and [option] are
    not used. *)
Definition try_start (gpu_name : string) (gpu_vram : Z) (version : list Z) : M unit :=
  node_info <- relay_node_get_node_info ;;
  let status := NodeInfo.status node_info in
  if bool_decide (status ∈ [AVAILABLE; BUSY; PENDING_PAUSE; PENDING_QUIT]) then
    let local_status := convert_node_status status in
    set_node_state local_status
  else if bool_decide (status = QUIT) then
    amount <- get_staking_amount ;;
    staking_amount <- to_wei amount ;;
    balance <- relay_get_balance ;;
    if balance <? staking_amount
    then raise (ValueError "Node token balance is not enough to join")
    else
      model_ids <- load_all_model_ids ;;
      relay_node_join gpu_name gpu_vram (version_string version)
                      model_ids staking_amount ;;
      _wait_for_running
  else if bool_decide (status = PAUSED) then
    relay_node_resume ;;
    _wait_for_running
  else ret tt.

(** [try_stop]; [fuel] bounds the iterations of the loop of
    [_wait_for_stop]. *)
Definition try_stop (fuel : nat) : M unit :=
  node_info <- relay_node_get_node_info ;;
  let status := NodeInfo.status node_info in
  if bool_decide (status = AVAILABLE) then
    relay_node_quit ;;
    set_tx_state TxPending "" ;;
    _wait_for_stop fuel ;;
    set_tx_state TxSuccess ""
  else ret tt.

(** The cache write that [_wrap_tx_error] makes for an exception that
    leaves its block: one for the three classes it records, none for the
    others. *)
Definition tx_error_writes (e : exn) : list CacheWrite :=
  match e with
  | RelayError _ | AssertionError _ | ValueError _ =>
      [set_tx_state_call TxError (exn_str e)]
  | _ => []
  end.

(** What a lifecycle operation leaves behind when its checks pass, it
    sends [calls] to the relay and the last of them is answered by
    [answer]: the requests are logged, no status is fetched, the cached
    node state is as before, and the transaction status is set to
    [Pending] when the relay accepted and to what [_wrap_tx_error] records
    when it raised; the operation returns in the first case and raises the
    relay's exception in the second. *)
Definition command_effect {A} (calls : list RelayCall) (answer : option exn)
    (w : World) (out : result A * World) : Prop :=
  let (r, w') := out in
  match answer with
  | None => exists a, r = Return a
  | Some e => r = Raise e
  end /\
  relay_calls w' = (relay_calls w ++ calls)%list /\
  polls w' = polls w /\
  node_state (state_cache w') = node_state (state_cache w) /\
  cache_writes w' =
    (cache_writes w ++
     match answer with
     | None => [set_tx_state_call TxPending ""]
     | Some e => tx_error_writes e
     end)%list.

End Manager.

(** ** contracts/w3_pool.py *)

Module Pool.

Import Stdlib.Init.Byte.

Inductive ProviderType : Type :=
| HTTP | WS | Other.

#[global] Instance ProviderType_eq_dec : EqDecision ProviderType.
Proof. solve_decision. Defined.

(** *** Strings and bytes *)

(** [s[n:]] *)
Fixpoint string_drop (n : nat) (s : string) : string :=
  match n, s with
  | O, _ => s
  | S n', String _ rest => string_drop n' rest
  | S _, EmptyString => EmptyString
  end.

(** [s.startswith(p)] *)
Definition startswith (p s : string) : bool := String.prefix p s.

(** The value of a hexadecimal digit. *)
Definition hex_digit_value (c : ascii) : option nat :=
  let n := nat_of_ascii c in
  if (48 <=? n)%nat && (n <=? 57)%nat then Some (n - 48)%nat
  else if (97 <=? n)%nat && (n <=? 102)%nat then Some (n - 87)%nat
  else if (65 <=? n)%nat && (n <=? 70)%nat then Some (n - 55)%nat
  else None.

(** ASCII whitespace: space, tab, line feed, vertical tab, form feed,
    carriage return. *)
Definition is_space (c : ascii) : bool :=
  let n := nat_of_ascii c in
  (n =? 32)%nat || ((9 <=? n)%nat && (n <=? 13)%nat).

Definition fromhex_error (pos : nat) : exn :=
  ValueError ("non-hexadecimal number found in fromhex() arg at position "
              +:+ pretty pos).

(** [bytes.fromhex] of the Python library: two digits per byte, whitespace
    allowed between bytes; [top] is the first digit of a byte whose second
    digit is still to be read. *)
Fixpoint fromhex_from (s : string) (pos : nat) (top : option nat) : exn + list byte :=
  match s with
  | EmptyString =>
      match top with
      | None => inr []
      | Some _ => inl (fromhex_error pos)
      end
  | String c rest =>
      match top with
      | None =>
          if is_space c then fromhex_from rest (S pos) None
          else match hex_digit_value c with
               | Some t => fromhex_from rest (S pos) (Some t)
               | None => inl (fromhex_error pos)
               end
      | Some t =>
          match hex_digit_value c with
          | Some b =>
              match fromhex_from rest (S pos) None with
              | inr bytes => inr (byte_of_ascii (ascii_of_nat (16 * t + b)) :: bytes)
              | inl e => inl e
              end
          | None => inl (fromhex_error pos)
          end
      end
  end.

Definition fromhex (s : string) : exn + list byte := fromhex_from s 0 None.

(** A string of hexadecimal digits. *)
Fixpoint hex_string (s : string) : bool :=
  match s with
  | EmptyString => true
  | String c rest =>
      match hex_digit_value c with
      | Some _ => hex_string rest
      | None => false
      end
  end.

(** What the pool uses of the [eth_keys] library: the constructor of a
    private key from raw bytes (which validates them), the public key of a
    private key and the checksum address of a public key.  Keys are held as
    their raw bytes, the address as its text. *)
Record KeyAPI : Type := {
  PrivateKey : list byte -> exn + list byte;
  public_key : list byte -> list byte;
  to_checksum_address : list byte -> string
}.

(** An injected [AsyncBaseProvider]. *)
Inductive Provider : Type :=
| provider_object (name : string).

(** *** Guards and the pool *)

(** A guard object: its id and the class it was built as.  Whether its
    transport has been torn down ([session.closed] of [HTTPW3Guard],
    [_closed] of the two other classes) is kept in [closed_guards] of the
    pool state, as guard objects outlive their entry in [_guards]. *)
Record W3Guard : Type := {
  _id : nat;
  guard_type : ProviderType
}.

(** Requests sent to the chain through a connection. *)
Inductive RpcCall : Type :=
| get_transaction_count_call (account : string) (block : string).

Record W3Pool : Type := {
  _privkey : list byte;
  _pubkey : list byte;
  _account : string;
  _pool_size : Z;
  _provider_path : option string;
  _timeout : Z;
  _rps : Z;
  _provider : option Provider;
  provider_type : ProviderType;
  _idle_pool : list nat;            (* deque(maxlen=_pool_size) *)
  _nonce : option Z;
  _next_id : nat;
  _guards : gmap nat W3Guard;
  _closed : bool;
  (* _condition: tasks suspended in wait(), oldest first, and tasks that
     were notified and have not yet run again *)
  waiting : list nat;
  notified : list nat;
  (* guard objects whose transport has been torn down *)
  closed_guards : gset nat;
  (* requests made to the chain so far *)
  rpc_calls : list RpcCall
}.

(** The mutable part of the pool, to be put back into a pool state. *)
Definition update (s : W3Pool) (idle : list nat) (nonce : option Z) (next_id : nat)
    (guards : gmap nat W3Guard) (closed : bool) (wait woken : list nat)
    (dead : gset nat) (calls : list RpcCall) : W3Pool :=
  {| _privkey := _privkey s; _pubkey := _pubkey s; _account := _account s;
     _pool_size := _pool_size s; _provider_path := _provider_path s;
     _timeout := _timeout s; _rps := _rps s; _provider := _provider s;
     provider_type := provider_type s;
     _idle_pool := idle; _nonce := nonce; _next_id := next_id;
     _guards := guards; _closed := closed;
     waiting := wait; notified := woken;
     closed_guards := dead; rpc_calls := calls |}.

Definition set_idle_pool (idle : list nat) (s : W3Pool) : W3Pool :=
  update s idle (_nonce s) (_next_id s) (_guards s) (_closed s)
         (waiting s) (notified s) (closed_guards s) (rpc_calls s).

Definition set_nonce (nonce : option Z) (s : W3Pool) : W3Pool :=
  update s (_idle_pool s) nonce (_next_id s) (_guards s) (_closed s)
         (waiting s) (notified s) (closed_guards s) (rpc_calls s).

Definition set_guards (guards : gmap nat W3Guard) (s : W3Pool) : W3Pool :=
  update s (_idle_pool s) (_nonce s) (_next_id s) guards (_closed s)
         (waiting s) (notified s) (closed_guards s) (rpc_calls s).

Definition set_closed (closed : bool) (s : W3Pool) : W3Pool :=
  update s (_idle_pool s) (_nonce s) (_next_id s) (_guards s) closed
         (waiting s) (notified s) (closed_guards s) (rpc_calls s).

Definition set_condition (wait woken : list nat) (s : W3Pool) : W3Pool :=
  update s (_idle_pool s) (_nonce s) (_next_id s) (_guards s) (_closed s)
         wait woken (closed_guards s) (rpc_calls s).

Definition set_closed_guards (dead : gset nat) (s : W3Pool) : W3Pool :=
  update s (_idle_pool s) (_nonce s) (_next_id s) (_guards s) (_closed s)
         (waiting s) (notified s) dead (rpc_calls s).

Definition add_rpc_call (call : RpcCall) (s : W3Pool) : W3Pool :=
  update s (_idle_pool s) (_nonce s) (_next_id s) (_guards s) (_closed s)
         (waiting s) (notified s) (closed_guards s) (rpc_calls s ++ [call])%list.

(** [W3Pool.__init__] *)
Definition W3Pool_init (api : KeyAPI) (privkey : string)
    (provider : option Provider) (provider_path : option string)
    (pool_size timeout rps : Z) : exn + W3Pool :=
  let privkey := if startswith "0x" privkey then string_drop 2 privkey else privkey in
  match fromhex privkey with
  | inl e => inl e
  | inr privkey_bytes =>
  match PrivateKey api privkey_bytes with
  | inl e => inl e
  | inr key =>
  let pubkey := public_key api key in
  let account := to_checksum_address api (public_key api key) in
  let chosen : exn + (ProviderType * option Provider * Z) :=
    match provider with
    | None =>
        match provider_path with
        | None => inl (ValueError "provider and provider_path cannot be all None.")
        | Some path =>
            if startswith "http" path then inr (HTTP, None, pool_size)
            else if startswith "ws" path then inr (WS, None, pool_size)
            else inl (ValueError ("unsupported provider " +:+ path))
        end
    | Some p => inr (Other, Some p, 1)
    end in
  match chosen with
  | inl e => inl e
  | inr (ptype, prov, size) =>
      (* deque(maxlen=...) rejects a negative length *)
      if size <? 0 then inl (ValueError "maxlen must be non-negative")
      else inr {| _privkey := key; _pubkey := pubkey; _account := account;
                  _pool_size := size; _provider_path := provider_path;
                  _timeout := timeout; _rps := rps; _provider := prov;
                  provider_type := ptype;
                  _idle_pool := []; _nonce := None; _next_id := 1;
                  _guards := ∅; _closed := false;
                  waiting := []; notified := [];
                  closed_guards := ∅; rpc_calls := [] |}
  end end end.

(** [deque.append] on a deque of bounded length: when the deque is full
    the oldest entries fall off at the left. *)
Definition deque_append (maxlen : Z) (d : list nat) (x : nat) : list nat :=
  let d' := (d ++ [x])%list in
  drop (length d' - Z.to_nat maxlen)%nat d'.

(** [deque.remove]: the first occurrence goes. *)
Fixpoint deque_remove (x : nat) (d : list nat) : list nat :=
  match d with
  | [] => []
  | y :: rest => if bool_decide (x = y) then rest else y :: deque_remove x rest
  end.

(** [Condition.notify(n)] *)
Definition notify (n : nat) (s : W3Pool) : W3Pool :=
  set_condition (drop n (waiting s)) (notified s ++ take n (waiting s))%list s.

(** [Condition.notify_all()] *)
Definition notify_all (s : W3Pool) : W3Pool :=
  set_condition [] (notified s ++ waiting s)%list s.

(** [on_guard_idle] *)
Definition on_guard_idle (id : nat) (s : W3Pool) : W3Pool :=
  if bool_decide (id ∈ dom (_guards s)) then
    notify 1 (set_idle_pool (deque_append (_pool_size s) (_idle_pool s) id) s)
  else s.

(** [on_guard_close] *)
Definition on_guard_close (id : nat) (s : W3Pool) : W3Pool :=
  if bool_decide (id ∈ dom (_guards s)) then
    let s' := set_guards (delete id (_guards s)) s in
    if bool_decide (id ∈ _idle_pool s')
    then set_idle_pool (deque_remove id (_idle_pool s')) s'
    else s'
  else s.

(** [close] of a guard object.  The three classes differ in the transport
    they tear down ([session.close()], [provider.disconnect()], nothing)
    and agree on the rest: a guard that is not closed yet reports to
    [on_close] and is closed afterwards. *)
Definition guard_close (id : nat) (s : W3Pool) : W3Pool :=
  if bool_decide (id ∈ closed_guards s) then s
  else
    let s' := on_guard_close id s in
    set_closed_guards ({[id]} ∪ closed_guards s') s'.

(** [W3Guard.__aexit__]; the boolean is the value returned to the
    [async with] statement. *)
Definition __aexit__ (id : nat) (exc_val : option exn) (s : W3Pool) : bool * W3Pool :=
  match exc_val with
  | Some e =>
      if is_ConnectionClosed e then (true, guard_close id s)
      else (false, on_guard_idle id s)
  | None => (false, on_guard_idle id s)
  end.

(** [async with guard as w3: return body(w3)], as the callers of the pool
    write it: a suppressed exception lets the statement end normally, and
    the caller returns [None]. *)
Definition async_with {A} (guard : W3Guard) (body : result A) (s : W3Pool)
    : result (option A) * W3Pool :=
  match body with
  | Return a => (Return (Some a), snd (__aexit__ (_id guard) None s))
  | Raise e =>
      let (suppress, s') := __aexit__ (_id guard) (Some e) s in
      (if suppress then Return None else Raise e, s')
  | Unfinished => (Unfinished, s)
  end.

(** [_new_w3]; [connect] is what opening the transport gives.  A new guard
    object is not closed. *)
Definition _new_w3 (connect : option exn) (s : W3Pool) : result W3Guard * W3Pool :=
  match connect with
  | Some e => (Raise e, s)
  | None =>
      let guard := {| _id := _next_id s; guard_type := provider_type s |} in
      (Return guard,
       update s (_idle_pool s) (_nonce s) (S (_next_id s)) (_guards s) (_closed s)
              (waiting s) (notified s) (closed_guards s ∖ {[_next_id s]})
              (rpc_calls s))
  end.

(** The loop [while len(idle) == 0 and not closed: wait()] of [get] and
    what follows it, for the task [task]. *)
Definition get_wait (task : nat) (s : W3Pool) : result W3Guard * W3Pool :=
  if bool_decide (length (_idle_pool s) = 0%nat) && negb (_closed s) then
    (Unfinished, set_condition (waiting s ++ [task])%list (notified s) s)
  else if _closed s then
    (Raise (ValueError "w3 pool is closed"), s)
  else
    match _idle_pool s with
    | guard_id :: rest =>
        let s' := set_idle_pool rest s in
        match _guards s' !! guard_id with
        | Some guard => (Return guard, s')
        | None => (Raise (KeyError guard_id), s')
        end
    | [] => (Raise (OtherException "pop from an empty deque"), s)
    end.

(** The body of [get] under the lock of the condition. *)
Definition get_locked (task : nat) (connect : option exn) (s : W3Pool)
    : result W3Guard * W3Pool :=
  if bool_decide (length (_idle_pool s) = 0%nat)
     && (Z.of_nat (size (_guards s)) <? _pool_size s) then
    match _new_w3 connect s with
    | (Return guard, s') =>
        (Return guard, set_guards (<[_id guard := guard]> (_guards s')) s')
    | (r, s') => (r, s')
    end
  else get_wait task s.

(** [get] *)
Definition get (task : nat) (connect : option exn) (s : W3Pool)
    : result W3Guard * W3Pool :=
  if _closed s then (Raise (AssertionError "w3 pool is closed"), s)
  else get_locked task connect s.

(** A task that was notified while suspended in [get] runs again: it
    re-enters the loop of [get]. *)
Definition get_resume (task : nat) (s : W3Pool) : result W3Guard * W3Pool :=
  if bool_decide (task ∈ notified s) then
    get_wait task
      (set_condition (waiting s) (filter (fun t => t ≠ task) (notified s)) s)
  else (Unfinished, s).

(** The pattern [re.compile(r"nonce", re.IGNORECASE)]. *)
Definition lower (c : ascii) : ascii :=
  let n := nat_of_ascii c in
  if (65 <=? n)%nat && (n <=? 90)%nat then ascii_of_nat (n + 32) else c.

Fixpoint lower_string (s : string) : string :=
  match s with
  | EmptyString => EmptyString
  | String c rest => String (lower c) (lower_string rest)
  end.

(** Whether [p] occurs in [s]. *)
Fixpoint contains (p s : string) : bool :=
  String.prefix p s ||
  match s with
  | EmptyString => false
  | String _ rest => contains p rest
  end.

(** [_invalid_nonce_pattern.search(text) is not None] *)
Definition _invalid_nonce_pattern_search (text : string) : bool :=
  contains "nonce" (lower_string text).

(** [with_nonce]: [pending] is what [get_transaction_count] answers,
    [body] the block run with the nonce that is yielded. *)
Definition with_nonce {A} (pending : exn + Z) (body : Z -> result A) (s : W3Pool)
    : result A * W3Pool :=
  if _closed s then (Raise (AssertionError "w3 pool is closed"), s)
  else
    let fetched : result Z * W3Pool :=
      match _nonce s with
      | Some n => (Return n, s)
      | None =>
          let s' := add_rpc_call (get_transaction_count_call (_account s) "pending") s in
          match pending with
          | inl e => (Raise e, s')
          | inr n => (Return n, set_nonce (Some n) s')
          end
      end in
    match fetched with
    | (Return nonce, s') =>
        match body nonce with
        | Return a => (Return a, set_nonce (Some (nonce + 1)) s')
        | Raise e =>
            if is_Exception e then
              if _invalid_nonce_pattern_search (exn_str e)
              then (Raise e, set_nonce None s')
              else (Raise e, s')
            else (Raise e, s')
        | Unfinished => (Unfinished, s')
        end
    | (Raise e, s') => (Raise e, s')
    | (Unfinished, s') => (Unfinished, s')
    end.

(** The last block of [close]: the flag is set and all waiters are woken. *)
Definition mark_closed (s : W3Pool) : W3Pool :=
  notify_all (set_closed true s).

(** The loop [for guard in guards: await guard.close()] of [close].  The
    coroutine gives way to the other tasks whenever it awaits: [others i]
    is what they do to the pool before the guard at position [i] of the
    snapshot is closed. *)
Fixpoint close_guards (others : nat -> W3Pool -> W3Pool) (i : nat)
    (guards : list nat) (s : W3Pool) : W3Pool :=
  match guards with
  | [] => s
  | id :: rest => close_guards others (S i) rest (guard_close id (others i s))
  end.

(** [close].  [guards] is the snapshot [list(self._guards.values())], the
    ids of the live guards in the order of the dict, which the table of
    the model does not keep; [others (length guards)] is what the other
    tasks do between the last guard and the block that marks the pool as
    closed. *)
Definition close (guards : list nat) (others : nat -> W3Pool -> W3Pool)
    (s : W3Pool) : W3Pool :=
  if negb (_closed s) then
    mark_closed (others (length guards) (close_guards others 0 guards s))
  else s.

(** The other tasks do nothing. *)
Definition no_others : nat -> W3Pool -> W3Pool := fun _ s => s.

(** *** Sequences of operations *)

(** The entry points of the pool and of its guards.  [GetLocked] is a
    [get] that passed its first check before the pool was closed and got
    the lock afterwards; [GuardClose] and [MarkClosed] are the parts of a
    [close] that other tasks interleave with; [Close] is a [close] during
    which no other task runs. *)
Inductive op : Type :=
| Get (task : nat) (connect : option exn)
| GetLocked (task : nat) (connect : option exn)
| Resume (task : nat)
| OnGuardIdle (id : nat)
| OnGuardClose (id : nat)
| GuardClose (id : nat)
| Exit (id : nat) (exc_val : option exn)
| MarkClosed
| Close.

Definition step (o : op) (s : W3Pool) : W3Pool :=
  match o with
  | Get task connect => snd (get task connect s)
  | GetLocked task connect => snd (get_locked task connect s)
  | Resume task => snd (get_resume task s)
  | OnGuardIdle id => on_guard_idle id s
  | OnGuardClose id => on_guard_close id s
  | GuardClose id => guard_close id s
  | Exit id exc_val => snd (__aexit__ id exc_val s)
  | MarkClosed => mark_closed s
  | Close => close (elements (dom (_guards s))) no_others s
  end.

Definition run (ops : list op) (s : W3Pool) : W3Pool :=
  foldl (fun s' o => step o s') s ops.

(** A pool as [__init__] leaves it. *)
Definition fresh (s : W3Pool) : Prop :=
  0 <= _pool_size s ∧ _idle_pool s = [] ∧ _guards s = ∅ ∧ _next_id s = 1%nat ∧
  _closed s = false ∧ _nonce s = None ∧ waiting s = [] ∧ notified s = [] ∧
  closed_guards s = ∅.

(** The ids that an operation hands to [on_guard_idle]. *)
Definition released (o : op) : option nat :=
  match o with
  | OnGuardIdle id => Some id
  | Exit id exc_val =>
      match exc_val with
      | Some e => if is_ConnectionClosed e then None else Some id
      | None => Some id
      end
  | _ => None
  end.

(** Every release is of a guard that is not idle already: a guard is
    released once per acquisition. *)
Fixpoint released_once (ops : list op) (s : W3Pool) : Prop :=
  match ops with
  | [] => True
  | o :: rest =>
      match released o with
      | Some id => id ∉ _idle_pool s
      | None => True
      end ∧ released_once rest (step o s)
  end.

(** What holds of every pool state that operations can lead to: the live
    guards fit the capacity, a guard is filed under its own id, which is
    below the next id to be given out, and no live guard is closed. *)
Definition wf (s : W3Pool) : Prop :=
  0 <= _pool_size s /\
  Z.of_nat (size (_guards s)) <= _pool_size s /\
  (forall id guard, _guards s !! id = Some guard ->
     _id guard = id /\ (id < _next_id s)%nat) /\
  (forall id, id ∈ dom (_guards s) -> id ∉ closed_guards s).

(** The idle queue holds live guards, each once. *)
Definition idle_ok (s : W3Pool) : Prop :=
  NoDup (_idle_pool s) /\
  forall id, id ∈ _idle_pool s -> id ∈ dom (_guards s).

(** A guard that is gone for good: not live, not idle, and older than
    every guard still to be built. *)
Definition evicted (id : nat) (s : W3Pool) : Prop :=
  (id ∉ dom (_guards s)) /\ (id ∉ _idle_pool s) /\ (id < _next_id s)%nat.

(** The three ways in which a task gets a guard out of the pool. *)
Definition acquires (s : W3Pool) (guard : W3Guard) (s' : W3Pool) : Prop :=
  (exists task connect, get task connect s = (Return guard, s')) \/
  (exists task connect, get_locked task connect s = (Return guard, s')) \/
  (exists task, get_resume task s = (Return guard, s')).

(** A guard that a task holds: it was given out, so its id is below the
    next id, and it is not waiting in the idle queue. *)
Definition held (id : nat) (s : W3Pool) : Prop :=
  (id ∉ _idle_pool s) /\ (id < _next_id s)%nat.



(** A guard that has been closed for good: its transport is torn down, it
    is out of the guard table and its id is below the next id. *)
Definition dead (id : nat) (s : W3Pool) : Prop :=
  (id ∈ closed_guards s) /\ (id ∉ dom (_guards s)) /\ (id < _next_id s)%nat.

End Pool.

(** ** Concrete worlds and pools *)

Module Examples.

Import Manager.

Definition info (status : ChainNodeStatus) (qos : float) : NodeInfo.t :=
  NodeInfo.mk "0xNode" "NVIDIA GeForce RTX 4090" 24 [] [] qos 0.5%float 0.25%float
              status "2.5.0".

(** A relay whose [n]-th status answer is the [n]-th entry of [statuses]
    (and [QUIT] afterwards), which holds [balance] and accepts every
    command. *)
Definition scripted_relay (statuses : list ChainNodeStatus) (balance : Z) : Relay :=
  {| node_info_answer := fun n => inr (info (nth n statuses QUIT) 1%float);
     balance_answer := inr balance;
     join_answer := None;
     quit_answer := None;
     pause_answer := None;
     resume_answer := None |}.

Definition world (node : NodeStatus) (tx : TxStatus)
    (statuses : list ChainNodeStatus) (balance : Z) : World :=
  {| state_cache :=
       {| node_state := NodeState.mk node "" "";
          tx_state := TxState.mk tx "";
          node_score_state := NodeScoreState.mk 0%float 0%float 0%float |};
     _cancel_scope := None;
     config_staking_amount := 400;
     download_model_ids := ["base:crynux-network/sdxl-turbo"];
     relay := scripted_relay statuses balance;
     polls := 0;
     relay_calls := [];
     cache_writes := [] |}.

(** The relay of [w] replaced by [r]. *)
Definition with_relay (r : Relay) (w : World) : World :=
  {| state_cache := state_cache w;
     _cancel_scope := _cancel_scope w;
     config_staking_amount := config_staking_amount w;
     download_model_ids := download_model_ids w;
     relay := r;
     polls := polls w;
     relay_calls := relay_calls w;
     cache_writes := cache_writes w |}.

(** A relay that reports [statuses] and [balance] as [scripted_relay]
    does and refuses every command with [e]. *)
Definition refusing_relay (statuses : list ChainNodeStatus) (balance : Z) (e : exn)
    : Relay :=
  {| node_info_answer := fun n => inr (info (nth n statuses QUIT) 1%float);
     balance_answer := inr balance;
     join_answer := Some e;
     quit_answer := Some e;
     pause_answer := Some e;
     resume_answer := Some e |}.

(** A relay that reports [statuses] and then fails every status request
    with [e]. *)
Definition dropping_relay (statuses : list ChainNodeStatus) (e : exn) : Relay :=
  {| node_info_answer := fun n =>
       match statuses !! n with
       | Some status => inr (info status 1%float)
       | None => inl e
       end;
     balance_answer := inr 0;
     join_answer := None;
     quit_answer := None;
     pause_answer := None;
     resume_answer := None |}.

(** The configured stake of [w] replaced by [amount]. *)
Definition with_staking (amount : Z) (w : World) : World :=
  {| state_cache := state_cache w;
     _cancel_scope := _cancel_scope w;
     config_staking_amount := amount;
     download_model_ids := download_model_ids w;
     relay := relay w;
     polls := polls w;
     relay_calls := relay_calls w;
     cache_writes := cache_writes w |}.

Import Pool.

(** A stand-in for the elliptic-curve backend of [eth_keys], to run the
    constructor of the pool on concrete keys: it checks the length of the
    key as the library does and derives the other values by copying. *)
Definition stub_keys : KeyAPI :=
  {| PrivateKey := fun bytes =>
       if bool_decide (length bytes = 32%nat) then inr bytes
       else inl (OtherException "Unexpected private key length");
     public_key := fun key => (key ++ key)%list;
     to_checksum_address := fun _ => "0x52908400098527886E0F7030069857D2E4169EE7" |}.

Definition privkey : string :=
  "4c0883a69102937d6231471b5dbb6204fe5129617082792ae468d01a3f362318".

(** The pool that [__init__] builds for an HTTP endpoint. *)
Definition http_pool (pool_size : Z) : exn + W3Pool :=
  W3Pool_init stub_keys privkey None (Some "http://127.0.0.1:8545") pool_size 10 10.

(** The state of the pool of [http_pool] after a run of operations. *)
Definition pool_after (pool_size : Z) (ops : list op) : W3Pool :=
  match http_pool pool_size with
  | inr s => run ops s
  | inl _ =>
      {| _privkey := []; _pubkey := []; _account := ""; _pool_size := 0;
         _provider_path := None; _timeout := 0; _rps := 0; _provider := None;
         provider_type := Other; _idle_pool := []; _nonce := None;
         _next_id := 1; _guards := ∅; _closed := true;
         waiting := []; notified := []; closed_guards := ∅; rpc_calls := [] |}
  end.

End Examples.

(** * Properties of the node lifecycle manager *)

Import Manager.

Lemma record_tx_error_relay_calls msg w :
  relay_calls (record_tx_error msg w) = relay_calls w.
Proof. reflexivity. Qed.

Lemma record_tx_error_status msg w :
  tx_state (state_cache (record_tx_error msg w)) = TxState.mk TxError msg.
Proof. reflexivity. Qed.

(** [stop] on a node that is not running raises its first assertion and
    records it. *)
Lemma stop_not_running w :
  node_status_of w ≠ Running ->
  stop w = (Raise (AssertionError "Cannot stop node. Node is not running."),
            record_tx_error "Cannot stop node. Node is not running." w).
Proof.
  unfold node_status_of, stop, _wrap_tx_error, bind, get_node_state, get_tx_state.
  intros H. simpl.
  destruct (NodeState.status (node_state (state_cache w))); try congruence; reflexivity.
Qed.

Lemma start_not_stopped gpu_name gpu_vram version w :
  node_status_of w ≠ Stopped ->
  start gpu_name gpu_vram version w =
    (Raise (AssertionError "Cannot start node. Node is not stopped."),
     record_tx_error "Cannot start node. Node is not stopped." w).
Proof.
  unfold node_status_of, start, _wrap_tx_error, bind, get_node_state, get_tx_state.
  intros H. simpl.
  destruct (NodeState.status (node_state (state_cache w))); try congruence; reflexivity.
Qed.

Lemma start_tx_pending gpu_name gpu_vram version w :
  node_status_of w = Stopped ->
  tx_status_of w = TxPending ->
  start gpu_name gpu_vram version w =
    (Raise (AssertionError "Cannot start node. Last transaction is in pending."),
     record_tx_error "Cannot start node. Last transaction is in pending." w).
Proof.
  unfold node_status_of, tx_status_of, start, _wrap_tx_error, bind,
    get_node_state, get_tx_state.
  intros Hn Ht. simpl. rewrite Hn, Ht. reflexivity.
Qed.

(** C8. Precondition enforcement: [stop] called while the cached node
    status is not [Running], and [start] called while the cached
    transaction status is [Pending] or the cached node status is not
    [Stopped], fail with an assertion (precondition) error, and no request
    has been sent to the relay when they fail. *)
Theorem precondition_enforcement (w : World) :
  (node_status_of w ≠ Running ->
   exists msg w',
     stop w = (Raise (AssertionError msg), w') /\
     relay_calls w' = relay_calls w)
  /\
  (tx_status_of w = TxPending \/ node_status_of w ≠ Stopped ->
   forall gpu_name gpu_vram version,
   exists msg w',
     start gpu_name gpu_vram version w = (Raise (AssertionError msg), w') /\
     relay_calls w' = relay_calls w).
Proof.
  split.
  - intros H. do 2 eexists. split; [apply stop_not_running, H | reflexivity].
  - intros H gpu_name gpu_vram version.
    destruct (decide (node_status_of w = Stopped)) as [Hs | Hs].
    + destruct H as [H | H]; [| contradiction].
      do 2 eexists. split; [apply start_tx_pending; assumption | reflexivity].
    + do 2 eexists. split; [apply start_not_stopped, Hs | reflexivity].
Qed.

Lemma precondition_enforcement_witness :
  (exists msg w',
     stop (Examples.world Paused TxNone [] 0) = (Raise (AssertionError msg), w') /\
     relay_calls w' = [])
  /\
  (exists msg w',
     start "RTX 4090" 24 [2; 5; 0] (Examples.world Stopped TxPending [] 0)
       = (Raise (AssertionError msg), w') /\
     relay_calls w' = []).
Proof.
  split.
  - apply (proj1 (precondition_enforcement (Examples.world Paused TxNone [] 0))).
    vm_compute. discriminate.
  - apply (proj2 (precondition_enforcement (Examples.world Stopped TxPending [] 0))).
    left. reflexivity.
Defined.

(** [Web3.to_wei] inside and outside of the library's bounds. *)
Lemma to_wei_in_range amount w :
  MIN_WEI <= to_wei_ether amount <= MAX_WEI ->
  to_wei amount w = (Return (to_wei_ether amount), w).
Proof.
  intros [Hlo Hhi]. unfold to_wei.
  rewrite (proj2 (Z.ltb_ge _ _) Hlo), (proj2 (Z.ltb_ge _ _) Hhi). reflexivity.
Qed.

Lemma to_wei_out_of_range amount w :
  ~ (MIN_WEI <= to_wei_ether amount <= MAX_WEI) ->
  to_wei amount w =
    (Raise (ValueError "Resulting wei value must be between 1 and 2**256 - 1"), w).
Proof.
  intros Hout. unfold to_wei.
  destruct (Z.ltb_spec (to_wei_ether amount) MIN_WEI); [reflexivity |].
  destruct (Z.ltb_spec MAX_WEI (to_wei_ether amount)); [reflexivity |].
  exfalso. apply Hout. split; assumption.
Qed.

(** [start] up to the balance check, for a stopped node with no pending
    transaction whose balance is too small. *)
Lemma start_balance_too_small gpu_name gpu_vram version w balance :
  node_status_of w = Stopped ->
  tx_status_of w ≠ TxPending ->
  MIN_WEI <= to_wei_ether (config_staking_amount w) <= MAX_WEI ->
  balance_answer (relay w) = inr balance ->
  balance < to_wei_ether (config_staking_amount w) ->
  start gpu_name gpu_vram version w =
    (Raise (ValueError "Node token balance is not enough to join."),
     record_tx_error "Node token balance is not enough to join."
       (with_relay_call w get_balance_call (polls w))).
Proof.
  unfold node_status_of, tx_status_of, start, _wrap_tx_error, bind,
    get_node_state, get_tx_state, get_staking_amount, relay_get_balance.
  intros Hn Ht Hrange Hb Hlt. simpl. rewrite Hn.
  destruct (TxState.status (tx_state (state_cache w))) eqn:E; try congruence;
    simpl; rewrite (to_wei_in_range _ _ Hrange); rewrite Hb; simpl;
    (destruct (Z.ltb_spec balance (to_wei_ether (config_staking_amount w)));
     [reflexivity | lia]).
Qed.

(** C4 (as amended). For a configured stake whose value in wei is within
    the bounds of [Web3.to_wei]: with a balance below the stake [start]
    fails with the insufficient-balance [ValueError]; the cached
    transaction status is not set to [Pending], no join request is sent,
    and the error wrapper records the failure: the cached transaction
    state becomes [Error] with the message of the exception. *)
Theorem start_insufficient_balance gpu_name gpu_vram version w balance :
  node_status_of w = Stopped ->
  tx_status_of w ≠ TxPending ->
  MIN_WEI <= to_wei_ether (config_staking_amount w) <= MAX_WEI ->
  balance_answer (relay w) = inr balance ->
  balance < to_wei_ether (config_staking_amount w) ->
  exists w',
    start gpu_name gpu_vram version w =
      (Raise (ValueError "Node token balance is not enough to join."), w') /\
    tx_state (state_cache w') =
      TxState.mk TxError "Node token balance is not enough to join." /\
    tx_status_of w' ≠ TxPending /\
    node_state (state_cache w') = node_state (state_cache w) /\
    relay_calls w' = (relay_calls w ++ [get_balance_call])%list /\
    cache_writes w' =
      (cache_writes w ++
       [set_tx_state_call TxError "Node token balance is not enough to join."])%list.
Proof.
  intros Hn Ht Hrange Hb Hlt. eexists. split.
  - apply start_balance_too_small with (balance := balance); assumption.
  - repeat split. unfold tx_status_of. simpl. discriminate.
Qed.

Lemma start_insufficient_balance_witness :
  exists w',
    start "RTX 4090" 24 [2; 5; 0] (Examples.world Stopped TxNone [] 399) =
      (Raise (ValueError "Node token balance is not enough to join."), w') /\
    tx_state (state_cache w') =
      TxState.mk TxError "Node token balance is not enough to join." /\
    tx_status_of w' ≠ TxPending /\
    node_state (state_cache w') = NodeState.mk Stopped "" "" /\
    relay_calls w' = [get_balance_call] /\
    cache_writes w' =
      [set_tx_state_call TxError "Node token balance is not enough to join."].
Proof.
  apply (start_insufficient_balance "RTX 4090" 24 [2; 5; 0]
           (Examples.world Stopped TxNone [] 399) 399).
  - reflexivity.
  - vm_compute. discriminate.
  - vm_compute. split; discriminate.
  - reflexivity.
  - vm_compute. reflexivity.
Defined.

(** C4, as stated, fails: a stopped node whose last transaction state is
    [None] and whose balance is one unit short of the stake has the
    transaction status [Error] after the failed [start], not the status
    it had before. *)
Lemma start_insufficient_balance_changes_tx_status :
  let w := Examples.world Stopped TxNone [] (to_wei_ether 400 - 1) in
  let (r, w') := start "RTX 4090" 24 [2; 5; 0] w in
  r = Raise (ValueError "Node token balance is not enough to join.") /\
  tx_status_of w = TxNone /\
  tx_status_of w' = TxError /\
  tx_status_of w' ≠ tx_status_of w.
Proof. vm_compute. repeat split; discriminate. Qed.

(** *** Waiting for the running status *)

(** What [start] and [resume] return when they succeed is the one wait
    coroutine. *)
Lemma start_returns_wait gpu_name gpu_vram version w0 w1 (wait : M unit) :
  start gpu_name gpu_vram version w0 = (Return wait, w1) ->
  wait = _wrap_tx_error _wait_for_running.
Proof.
  unfold start, bind. intros H.
  destruct (_wrap_tx_error _ w0) as [[a | e |] w']; simpl in H;
    try discriminate.
  unfold ret in H. congruence.
Qed.

Lemma resume_returns_wait w0 w1 (wait : M unit) :
  resume w0 = (Return wait, w1) ->
  wait = _wrap_tx_error _wait_for_running.
Proof.
  unfold resume, bind. intros H.
  destruct (_wrap_tx_error _ w0) as [[a | e |] w']; simpl in H;
    try discriminate.
  unfold ret in H. congruence.
Qed.

(** The world after the poll of [_wait_for_running] and its two writes. *)
Lemma wait_for_running_running w info :
  node_info_answer (relay w) (polls w) = inr info ->
  convert_node_status (NodeInfo.status info) = Running ->
  _wrap_tx_error _wait_for_running w =
    (Return tt,
     snd (set_tx_state TxSuccess ""
            (snd (set_node_state Running
                    (with_relay_call w node_get_node_info_call (S (polls w))))))).
Proof.
  intros Ha Hs.
  unfold _wrap_tx_error, _wait_for_running, _get_node_status, bind,
    relay_node_get_node_info.
  rewrite Ha. simpl. rewrite Hs. reflexivity.
Qed.

Lemma wait_for_running_not_running w info :
  node_info_answer (relay w) (polls w) = inr info ->
  convert_node_status (NodeInfo.status info) ≠ Running ->
  _wrap_tx_error _wait_for_running w =
    (Raise (AssertionError "Node status on chain is not running."),
     record_tx_error "Node status on chain is not running."
       (with_relay_call w node_get_node_info_call (S (polls w)))).
Proof.
  intros Ha Hs.
  unfold _wrap_tx_error, _wait_for_running, _get_node_status, bind,
    relay_node_get_node_info.
  rewrite Ha. simpl.
  destruct (convert_node_status (NodeInfo.status info)); try congruence; reflexivity.
Qed.

(** C1 (as amended). The wait coroutine returned by [start] and by
    [resume] polls the relay exactly once.  When the status polled maps to
    [Running] it writes [Running] to the node-status cache and sets the
    transaction status to [Success]; for every other status it fails with
    the assertion error, which the error wrapper records as transaction
    status [Error]; it never polls a second time. *)
Theorem wait_for_running_polls_once gpu_name gpu_vram version w0 w1 wait w info :
  start gpu_name gpu_vram version w0 = (Return wait, w1) \/
  resume w0 = (Return wait, w1) ->
  node_info_answer (relay w) (polls w) = inr info ->
  exists r w',
    wait w = (r, w') /\
    polls w' = S (polls w) /\
    relay_calls w' = (relay_calls w ++ [node_get_node_info_call])%list /\
    (convert_node_status (NodeInfo.status info) = Running ->
       r = Return tt /\
       node_status_of w' = Running /\
       tx_state (state_cache w') = TxState.mk TxSuccess "" /\
       cache_writes w' =
         (cache_writes w ++
          [set_node_state_call Running; set_tx_state_call TxSuccess ""])%list) /\
    (convert_node_status (NodeInfo.status info) ≠ Running ->
       r = Raise (AssertionError "Node status on chain is not running.") /\
       node_state (state_cache w') = node_state (state_cache w) /\
       tx_state (state_cache w') =
         TxState.mk TxError "Node status on chain is not running.").
Proof.
  intros Hwait Ha.
  assert (wait = _wrap_tx_error _wait_for_running) as ->.
  { destruct Hwait as [H | H];
      [eapply start_returns_wait | eapply resume_returns_wait]; exact H. }
  destruct (decide (convert_node_status (NodeInfo.status info) = Running)) as [Hs | Hs].
  - do 2 eexists. split; [apply wait_for_running_running with (info := info); assumption |].
    repeat split; try reflexivity; try contradiction.
    simpl. rewrite <- app_assoc. reflexivity.
  - do 2 eexists. split; [apply wait_for_running_not_running with (info := info); assumption |].
    repeat split; try reflexivity; try contradiction.
Qed.

Lemma wait_for_running_polls_once_witness :
  exists r w',
    _wrap_tx_error _wait_for_running
      (snd (start "RTX 4090" 24 [2; 5; 0]
              (Examples.world Stopped TxNone [AVAILABLE] (to_wei_ether 400)))) = (r, w') /\
    polls w' = 1%nat /\
    r = Return tt /\
    node_status_of w' = Running /\
    tx_status_of w' = TxSuccess.
Proof.
  pose (w0 := Examples.world Stopped TxNone [AVAILABLE] (to_wei_ether 400)).
  destruct (wait_for_running_polls_once "RTX 4090" 24 [2; 5; 0] w0
              (snd (start "RTX 4090" 24 [2; 5; 0] w0))
              (_wrap_tx_error _wait_for_running)
              (snd (start "RTX 4090" 24 [2; 5; 0] w0))
              (Examples.info AVAILABLE 1%float))
    as (r & w' & Hrun & Hpolls & _ & Hok & _).
  - left. reflexivity.
  - reflexivity.
  - exists r, w'. destruct (Hok eq_refl) as (Hr & Hn & Ht & _).
    split; [exact Hrun |]. split; [exact Hpolls |]. split; [exact Hr |].
    split; [exact Hn |]. unfold tx_status_of. rewrite Ht. reflexivity.
Defined.

(** C1, as stated, fails: after a successful [start], let the relay still
    report [QUIT] at the first poll and [AVAILABLE] (which maps to
    [Running]) at the second.  The wait does not go on polling until the
    status is [Running]: it fails at the first poll, leaves the transaction
    status [Error], and the second answer is never asked for. *)
Lemma wait_for_running_does_not_repeat :
  let w0 := Examples.world Stopped TxNone [QUIT; AVAILABLE] (to_wei_ether 400) in
  exists wait w1 w2,
    start "RTX 4090" 24 [2; 5; 0] w0 = (Return wait, w1) /\
    (exists info, node_info_answer (relay w1) 1 = inr info /\
                  convert_node_status (NodeInfo.status info) = Running) /\
    wait w1 = (Raise (AssertionError "Node status on chain is not running."), w2) /\
    polls w2 = 1%nat /\
    tx_status_of w2 = TxError /\
    tx_status_of w2 ≠ TxSuccess.
Proof.
  do 3 eexists. split; [reflexivity |].
  split; [eexists; split; reflexivity |].
  split; [reflexivity |].
  split; [reflexivity |].
  split; [reflexivity | discriminate].
Qed.

(** *** Waiting for the stopped status *)

Lemma observe_polls s pending w : polls (observe s pending w) = S (polls w).
Proof. unfold observe. destruct pending; reflexivity. Qed.

Lemma observe_relay s pending w : relay (observe s pending w) = relay w.
Proof. unfold observe. destruct pending; reflexivity. Qed.

Lemma observe_node_status s pending w : node_status_of (observe s pending w) = s.
Proof. unfold observe. destruct pending; reflexivity. Qed.

Lemma observe_all_polls l : forall pending w,
  polls (observe_all l pending w) = (polls w + length l)%nat.
Proof.
  induction l as [| s l IH]; intros pending w; simpl.
  - lia.
  - rewrite IH, observe_polls. lia.
Qed.

Lemma observe_all_relay l : forall pending w,
  relay (observe_all l pending w) = relay w.
Proof.
  induction l as [| s l IH]; intros pending w; simpl.
  - reflexivity.
  - rewrite IH. apply observe_relay.
Qed.

Lemma observe_all_writes_later l : forall w,
  cache_writes (observe_all l false w) =
    (cache_writes w ++ map set_node_state_call l)%list.
Proof.
  induction l as [| s l IH]; intros w; simpl.
  - rewrite app_nil_r. reflexivity.
  - rewrite IH. simpl. rewrite <- app_assoc. reflexivity.
Qed.

Lemma observe_all_writes l w :
  cache_writes (observe_all l true w) = (cache_writes w ++ wait_writes l)%list.
Proof.
  destruct l as [| s l]; simpl.
  - rewrite app_nil_r. reflexivity.
  - rewrite observe_all_writes_later. simpl.
    rewrite <- !app_assoc. reflexivity.
Qed.

Lemma observe_all_app l1 l2 : forall pending w,
  observe_all (l1 ++ l2) pending w =
    observe_all l2 (match l1 with [] => pending | _ => false end)
      (observe_all l1 pending w).
Proof.
  induction l1 as [| s l1 IH]; intros pending w; simpl.
  - reflexivity.
  - rewrite IH. destruct l1; reflexivity.
Qed.

Lemma observe_all_later_tx_state l : forall w,
  tx_state (state_cache (observe_all l false w)) = tx_state (state_cache w).
Proof.
  induction l as [| s l IH]; intros w; simpl; [reflexivity |].
  rewrite IH. reflexivity.
Qed.

(** After the first observation the transaction status stays [Success]. *)
Lemma observe_all_tx_state l w :
  l ≠ [] ->
  tx_state (state_cache (observe_all l true w)) = TxState.mk TxSuccess "".
Proof.
  intros Hl. destruct l as [| s l]; [congruence |]. simpl.
  rewrite observe_all_later_tx_state. reflexivity.
Qed.

Lemma observe_all_node_status l s pending w :
  node_status_of (observe_all (l ++ [s]) pending w) = s.
Proof.
  rewrite observe_all_app. simpl. apply observe_node_status.
Qed.

(** One iteration of the loop on a pending status. *)
Lemma wait_for_stop_loop_pending fuel pending w info :
  node_info_answer (relay w) (polls w) = inr info ->
  NodeInfo.status info = PENDING_QUIT ->
  _wait_for_stop_loop (S fuel) pending w =
    _wait_for_stop_loop fuel false (observe PendingStop pending w).
Proof.
  intros Ha Hs. simpl.
  unfold _get_node_status, bind, relay_node_get_node_info.
  rewrite Ha. simpl. rewrite Hs. simpl.
  unfold observe. destruct pending; reflexivity.
Qed.

(** One iteration of the loop on the final status. *)
Lemma wait_for_stop_loop_stopped fuel pending w info :
  node_info_answer (relay w) (polls w) = inr info ->
  NodeInfo.status info = QUIT ->
  _wait_for_stop_loop (S fuel) pending w = (Return tt, observe Stopped pending w).
Proof.
  intros Ha Hs. simpl.
  unfold _get_node_status, bind, relay_node_get_node_info.
  rewrite Ha. simpl. rewrite Hs. simpl.
  unfold observe. destruct pending; reflexivity.
Qed.

(** One iteration of the loop on a status that is neither. *)
Lemma wait_for_stop_loop_illegal fuel pending w info :
  node_info_answer (relay w) (polls w) = inr info ->
  convert_node_status (NodeInfo.status info) ∉ [Stopped; PendingStop] ->
  _wait_for_stop_loop (S fuel) pending w =
    (Raise (AssertionError "Node status on chain is not stopped or pending."),
     with_relay_call w node_get_node_info_call (S (polls w))).
Proof.
  intros Ha Hs. simpl.
  unfold _get_node_status, bind, relay_node_get_node_info.
  rewrite Ha. simpl.
  rewrite bool_decide_eq_false_2 by exact Hs. reflexivity.
Qed.

(** [k] pending statuses in a row: the loop makes [k] observations and
    goes on. *)
Lemma wait_for_stop_loop_prefix k : forall fuel pending w,
  (forall i, (i < k)%nat ->
     exists info, node_info_answer (relay w) (polls w + i) = inr info /\
                  NodeInfo.status info = PENDING_QUIT) ->
  _wait_for_stop_loop (k + fuel) pending w =
    _wait_for_stop_loop fuel (match k with O => pending | _ => false end)
      (observe_all (replicate k PendingStop) pending w).
Proof.
  induction k as [| k IH]; intros fuel pending w H; simpl.
  - reflexivity.
  - destruct (H 0%nat ltac:(lia)) as (info & Ha & Hs).
    rewrite Nat.add_0_r in Ha.
    change (_wait_for_stop_loop (S (k + fuel)) pending w = _wait_for_stop_loop fuel false
              (observe_all (replicate k PendingStop) false (observe PendingStop pending w))).
    rewrite (wait_for_stop_loop_pending _ _ _ _ Ha Hs).
    rewrite IH.
    + destruct k; reflexivity.
    + intros i Hi. rewrite observe_relay, observe_polls.
      destruct (H (S i) ltac:(lia)) as (info' & Ha' & Hs').
      exists info'. split; [| exact Hs'].
      rewrite <- Ha'. f_equal. lia.
Qed.

(** The loop returns only from an observation of [Stopped]. *)
Lemma wait_for_stop_loop_returns fuel : forall pending w w',
  _wait_for_stop_loop fuel pending w = (Return tt, w') ->
  node_status_of w' = Stopped /\
  exists info, node_info_answer (relay w') (pred (polls w')) = inr info /\
               NodeInfo.status info = QUIT.
Proof.
  induction fuel as [| fuel IH]; intros pending w w' H; simpl in H.
  - discriminate.
  - unfold _get_node_status, bind, relay_node_get_node_info in H.
    destruct (node_info_answer (relay w) (polls w)) as [e | info] eqn:Ha;
      simpl in H; [discriminate |].
    destruct (NodeInfo.status info) eqn:Hs; simpl in H;
      try discriminate.
    + (* QUIT *)
      destruct pending; simpl in H; inversion H; subst; simpl;
        (split; [reflexivity | exists info; split; assumption]).
    + (* PENDING_QUIT *)
      destruct pending; simpl in H; apply IH in H; exact H.
Qed.

Lemma stop_returns_wait w0 w1 (wait : nat -> M unit) :
  stop w0 = (Return wait, w1) ->
  wait = fun fuel => _wrap_tx_error (_wait_for_stop fuel).
Proof.
  unfold stop, bind. intros H.
  destruct (_wrap_tx_error _ w0) as [[a | e |] w']; simpl in H;
    try discriminate.
  unfold ret in H. congruence.
Qed.

Lemma replicate_pending_flag (k : nat) :
  match replicate k PendingStop with [] => true | _ => false end =
  match k with O => true | _ => false end.
Proof. destruct k; reflexivity. Qed.

(** C7. The wait of [stop], on a relay that reports the pending status [k]
    times and then the status [last]: as long as only pending statuses
    have been seen the wait is still polling; every status observed is
    written to the node-status cache; the transaction status is set to
    [Success] at the first observation and by no later one; the wait
    returns when [last] maps to [Stopped] and fails with the assertion
    error when [last] maps to anything but [Stopped] or [PendingStop]; and
    whenever the wait returns, the status it saw last maps to [Stopped]. *)
Theorem stop_wait_observations w0 w1 wait w k last :
  stop w0 = (Return wait, w1) ->
  (forall i, (i < k)%nat ->
     exists info, node_info_answer (relay w) (polls w + i) = inr info /\
                  NodeInfo.status info = PENDING_QUIT) ->
  node_info_answer (relay w) (polls w + k) = inr last ->
  NodeInfo.status last ≠ PENDING_QUIT ->
  (forall fuel, (fuel <= k)%nat ->
     wait fuel w = (Unfinished, observe_all (replicate fuel PendingStop) true w) /\
     cache_writes (observe_all (replicate fuel PendingStop) true w) =
       (cache_writes w ++ wait_writes (replicate fuel PendingStop))%list) /\
  (forall fuel, (k < fuel)%nat ->
     exists r w',
       wait fuel w = (r, w') /\
       polls w' = (polls w + S k)%nat /\
       (NodeInfo.status last = QUIT ->
          r = Return tt /\
          node_status_of w' = Stopped /\
          tx_state (state_cache w') = TxState.mk TxSuccess "" /\
          cache_writes w' =
            (cache_writes w ++ wait_writes (replicate k PendingStop ++ [Stopped]))%list) /\
       (NodeInfo.status last ≠ QUIT ->
          r = Raise (AssertionError "Node status on chain is not stopped or pending.") /\
          tx_state (state_cache w') =
            TxState.mk TxError "Node status on chain is not stopped or pending." /\
          cache_writes w' =
            (cache_writes w ++ wait_writes (replicate k PendingStop) ++
             [set_tx_state_call TxError
                "Node status on chain is not stopped or pending."])%list)) /\
  (forall fuel w', wait fuel w = (Return tt, w') -> node_status_of w' = Stopped).
Proof.
  intros Hwait Hpending Hlast Hnp.
  apply stop_returns_wait in Hwait. subst wait.
  split; [| split].
  - intros fuel Hle. split; [| apply observe_all_writes].
    unfold _wrap_tx_error, _wait_for_stop.
    replace fuel with (fuel + 0)%nat at 1 by lia.
    rewrite wait_for_stop_loop_prefix; [reflexivity |].
    intros i Hi. apply Hpending. lia.
  - intros fuel Hlt.
    destruct fuel as [| fuel]; [lia |].
    set (wk := observe_all (replicate k PendingStop) true w).
    assert (Hloop : _wait_for_stop (S fuel) w =
                    _wait_for_stop_loop (S (fuel - k))
                      (match k with O => true | _ => false end) wk).
    { unfold _wait_for_stop.
      replace (S fuel) with (k + S (fuel - k))%nat at 1 by lia.
      apply wait_for_stop_loop_prefix. exact Hpending. }
    assert (Hans : node_info_answer (relay wk) (polls wk) = inr last).
    { unfold wk. rewrite observe_all_relay, observe_all_polls, length_replicate.
      exact Hlast. }
    assert (Hpolls : polls wk = (polls w + k)%nat).
    { unfold wk. rewrite observe_all_polls, length_replicate. reflexivity. }
    destruct (decide (NodeInfo.status last = QUIT)) as [Hq | Hq].
    + exists (Return tt), (observe_all (replicate k PendingStop ++ [Stopped]) true w).
      split.
      { unfold _wrap_tx_error. rewrite Hloop.
        rewrite (wait_for_stop_loop_stopped _ _ _ _ Hans Hq).
        rewrite observe_all_app. simpl. rewrite replicate_pending_flag.
        reflexivity. }
      split.
      { rewrite observe_all_polls, length_app, length_replicate. simpl. lia. }
      split; [| intros Hc; contradiction].
      intros _. split; [reflexivity |].
      split; [apply observe_all_node_status |].
      split; [| apply observe_all_writes].
      apply observe_all_tx_state. destruct (replicate k PendingStop); discriminate.
    + eexists _, _. split.
      { unfold _wrap_tx_error. rewrite Hloop.
        rewrite (wait_for_stop_loop_illegal _ _ _ _ Hans); [reflexivity |].
        destruct (NodeInfo.status last); simpl; try congruence;
          intros Hin; repeat (apply elem_of_cons in Hin as [Hin | Hin];
                              [discriminate |]);
          inversion Hin. }
      split; [simpl; lia |].
      split; [intros Hc; contradiction |].
      intros _. split; [reflexivity |]. split; [reflexivity |].
      simpl. unfold wk. rewrite observe_all_writes, <- app_assoc. reflexivity.
  - intros fuel w' H. unfold _wrap_tx_error in H.
    destruct (_wait_for_stop fuel w) as [[[] | e |] w''] eqn:E.
    + inversion H; subst. unfold _wait_for_stop in E.
      apply wait_for_stop_loop_returns in E. apply E.
    + destruct e; discriminate.
    + discriminate.
Qed.

Lemma stop_wait_observations_witness :
  let w0 := Examples.world Running TxNone [PENDING_QUIT; PENDING_QUIT; QUIT] 0 in
  let w1 := snd (stop w0) in
  exists r w',
    _wrap_tx_error (_wait_for_stop 5) w1 = (r, w') /\
    polls w' = 3%nat /\
    r = Return tt /\
    node_status_of w' = Stopped /\
    tx_state (state_cache w') = TxState.mk TxSuccess "" /\
    cache_writes w' =
      [set_tx_state_call TxPending "";
       set_node_state_call PendingStop; set_tx_state_call TxSuccess "";
       set_node_state_call PendingStop; set_node_state_call Stopped].
Proof.
  intros w0 w1.
  assert (H := stop_wait_observations w0 w1
                 (fun fuel => _wrap_tx_error (_wait_for_stop fuel)) w1 2
                 (Examples.info QUIT 1%float)).
  destruct H as (_ & H & _).
  - reflexivity.
  - intros i Hi. exists (Examples.info PENDING_QUIT 1%float).
    destruct i as [| [| i]]; [split; reflexivity | split; reflexivity | lia].
  - reflexivity.
  - discriminate.
  - destruct (H 5%nat ltac:(lia)) as (r & w' & Hrun & Hpolls & Hq & _).
    destruct (Hq eq_refl) as (Hr & Hn & Ht & Hw).
    exists r, w'. repeat split; assumption.
Defined.

(** *** The sync loop *)

(** One tick of the loop when the relay answers. *)
Lemma sync_tick_writes w info :
  node_info_answer (relay w) (polls w) = inr info ->
  exists w',
    sync_tick w = (Return tt, w') /\
    polls w' = S (polls w) /\
    relay w' = relay w /\
    cache_writes w' = (cache_writes w ++ tick_writes (node_status_of w) info)%list /\
    node_status_of w' = convert_node_status (NodeInfo.status info) /\
    node_score_state (state_cache w') =
      NodeScoreState.mk (NodeInfo.qos_score info) (NodeInfo.staking_score info)
                        (NodeInfo.prob_weight info).
Proof.
  intros Ha.
  unfold sync_tick, bind, relay_node_get_node_info, get_node_state, tick_writes,
    node_status_of.
  rewrite Ha. simpl.
  destruct (decide (convert_node_status (NodeInfo.status info) =
                    NodeState.status (node_state (state_cache w)))) as [He | He].
  - rewrite (bool_decide_eq_false_2 _ (fun H => H He)).
    rewrite (bool_decide_eq_true_2 _ He). simpl.
    eexists. split; [reflexivity |]. repeat split. simpl. symmetry. exact He.
  - rewrite (bool_decide_eq_true_2 _ He).
    rewrite (bool_decide_eq_false_2 _ He). simpl.
    eexists. split; [reflexivity |]. repeat split.
    simpl. rewrite <- app_assoc. reflexivity.
Qed.

Lemma sync_tick_finishes w w' : sync_tick w ≠ (Unfinished, w').
Proof.
  unfold sync_tick, bind, relay_node_get_node_info, get_node_state.
  destruct (node_info_answer (relay w) (polls w)) as [e | info]; simpl;
    [discriminate |].
  destruct (bool_decide _); simpl; discriminate.
Qed.

(** The loop splits into its ticks: one more tick after [n] of them. *)
Lemma start_sync_loop_snoc n : forall w wn w',
  start_sync_loop n w = (Unfinished, wn) ->
  sync_tick wn = (Return tt, w') ->
  start_sync_loop (S n) w = (Unfinished, w').
Proof.
  induction n as [| n IH]; intros w wn w' H Ht.
  - simpl in H. inversion H; subst. simpl. unfold bind. rewrite Ht. reflexivity.
  - change (start_sync_loop (S n) w) with ((sync_tick ;; start_sync_loop n) w) in H.
    change (start_sync_loop (S (S n)) w) with ((sync_tick ;; start_sync_loop (S n)) w).
    unfold bind in *.
    destruct (sync_tick w) as [[[] | e |] w1] eqn:E; try discriminate.
    + eapply IH; eassumption.
    + exfalso. exact (sync_tick_finishes _ _ E).
Qed.

(** As long as the relay answers, the loop keeps ticking. *)
Lemma start_sync_loop_ticks n : forall w (infos : nat -> NodeInfo.t),
  (forall k, (k < n)%nat -> node_info_answer (relay w) (polls w + k) = inr (infos k)) ->
  exists wn,
    start_sync_loop n w = (Unfinished, wn) /\
    polls wn = (polls w + n)%nat /\ relay wn = relay w.
Proof.
  induction n as [| n IH]; intros w infos H.
  - exists w. simpl. repeat split. lia.
  - destruct (IH w infos) as (wn & Hn & Hp & Hr); [intros k Hk; apply H; lia |].
    destruct (sync_tick_writes wn (infos n)) as (w' & Ht & Hp' & Hr' & _).
    { rewrite Hr, Hp. apply H. lia. }
    exists w'. split; [eapply start_sync_loop_snoc; eassumption |].
    split; [lia | congruence].
Qed.

Lemma start_sync_running ticks w w' :
  _cancel_scope w = None ->
  start_sync_loop ticks (snd (set_cancel_scope (Some {| cancel_called := false |}) w))
    = (Unfinished, w') ->
  start_sync ticks w = (Unfinished, w').
Proof.
  intros Hs H. unfold start_sync. rewrite Hs. unfold bind. simpl.
  simpl in H. rewrite H. reflexivity.
Qed.

(** C9. Every tick of [start_sync] for which the relay answers writes the
    score state of the answer to the cache, whether the status changed or
    not, and writes the mapped status to the node-status cache exactly
    when it differs from the status cached at that moment. *)
Theorem sync_tick_cache_writes w n (infos : nat -> NodeInfo.t) :
  _cancel_scope w = None ->
  (forall k, (k < n)%nat -> node_info_answer (relay w) (polls w + k) = inr (infos k)) ->
  forall k, (k < n)%nat ->
  exists wk wk',
    start_sync k w = (Unfinished, wk) /\
    start_sync (S k) w = (Unfinished, wk') /\
    let local_status := convert_node_status (NodeInfo.status (infos k)) in
    let score :=
      NodeScoreState.mk (NodeInfo.qos_score (infos k))
                        (NodeInfo.staking_score (infos k))
                        (NodeInfo.prob_weight (infos k)) in
    (local_status = node_status_of wk ->
       cache_writes wk' =
         (cache_writes wk ++ [set_node_score_state_call score])%list) /\
    (local_status ≠ node_status_of wk ->
       cache_writes wk' =
         (cache_writes wk ++
          [set_node_state_call local_status; set_node_score_state_call score])%list) /\
    node_status_of wk' = local_status /\
    node_score_state (state_cache wk') = score.
Proof.
  intros Hs Hans k Hk.
  set (ws := snd (set_cancel_scope (Some {| cancel_called := false |}) w)).
  destruct (start_sync_loop_ticks k ws infos) as (wk & Hloop & Hp & Hr).
  { intros i Hi. apply Hans. lia. }
  destruct (sync_tick_writes wk (infos k)) as (wk' & Ht & _ & _ & Hw & Hn & Hsc).
  { rewrite Hr, Hp. apply Hans. exact Hk. }
  exists wk, wk'.
  split; [apply start_sync_running; assumption |].
  split; [apply start_sync_running;
          [assumption | eapply start_sync_loop_snoc; eassumption] |].
  unfold tick_writes in Hw. simpl.
  split; [| split; [| split; assumption]].
  - intros He. rewrite Hw, (bool_decide_eq_true_2 _ He). reflexivity.
  - intros He. rewrite Hw, (bool_decide_eq_false_2 _ He). reflexivity.
Qed.

(** The scenario of the specification: [Busy] then [Quit]. *)
Lemma sync_tick_cache_writes_witness :
  let w := Examples.world Running TxNone [BUSY; QUIT] 0 in
  let score := NodeScoreState.mk 1%float 0.5%float 0.25%float in
  exists w1 w2,
    start_sync 1 w = (Unfinished, w1) /\
    start_sync 2 w = (Unfinished, w2) /\
    cache_writes w1 = [set_node_score_state_call score] /\
    cache_writes w2 =
      [set_node_score_state_call score;
       set_node_state_call Stopped; set_node_score_state_call score] /\
    node_status_of w1 = Running /\
    node_status_of w2 = Stopped.
Proof.
  intros w score.
  pose (infos := fun k : nat => Examples.info (nth k [BUSY; QUIT] QUIT) 1%float).
  assert (Hans : forall k, (k < 2)%nat ->
            node_info_answer (relay w) (polls w + k) = inr (infos k)).
  { intros k Hk. reflexivity. }
  destruct (sync_tick_cache_writes w 2 infos eq_refl Hans 0%nat ltac:(lia))
    as (w0 & w1 & H0 & H1 & Hsame & _ & Hn1 & _).
  destruct (sync_tick_cache_writes w 2 infos eq_refl Hans 1%nat ltac:(lia))
    as (w1' & w2 & H1' & H2 & _ & Hdiff & Hn2 & _).
  assert (Hw1 : w1' = w1) by congruence. subst w1'.
  assert (Hw0 : w0 = snd (set_cancel_scope (Some {| cancel_called := false |}) w)).
  { unfold start_sync, bind in H0. simpl in H0. inversion H0. reflexivity. }
  subst w0.
  exists w1, w2. split; [exact H1 |]. split; [exact H2 |].
  specialize (Hsame eq_refl). simpl in Hsame.
  split; [exact Hsame |].
  split; [| split; [exact Hn1 | exact Hn2]].
  rewrite Hdiff, Hsame; [reflexivity |].
  rewrite Hn1. discriminate.
Defined.

(** * Properties of the connection pool *)

Import Pool.

(** *** The constructor *)

Lemma prefix_cons a s1 b s2 :
  String.prefix (String a s1) (String b s2) =
    if ascii_dec a b then String.prefix s1 s2 else false.
Proof. reflexivity. Qed.

Lemma startswith_0x_hex k : hex_string k = true -> startswith "0x" k = false.
Proof.
  unfold startswith. intros H.
  destruct k as [| c [| c' k]]; try reflexivity.
  - rewrite prefix_cons. destruct (ascii_dec "0" c); reflexivity.
  - rewrite !prefix_cons.
    destruct (ascii_dec "0" c) as [<- | ]; [| reflexivity].
    destruct (ascii_dec "x" c') as [<- | ]; [| reflexivity].
    vm_compute in H. discriminate.
Qed.

Lemma strip_0x k :
  (if startswith "0x" ("0x" +:+ k) then string_drop 2 ("0x" +:+ k) else "0x" +:+ k) = k.
Proof.
  unfold startswith.
  change ("0x" +:+ k) with (String "0" (String "x" k)).
  rewrite !prefix_cons.
  destruct (ascii_dec "0" "0"); [| congruence].
  destruct (ascii_dec "x" "x"); [| congruence].
  destruct k; reflexivity.
Qed.

(** C10. Private-key normalisation: for a string [k] of hexadecimal
    digits, the constructor run on ["0x" + k] and run on [k] give the same
    result: the same pool, with the same private key, the same public key
    and the same account address (or the same exception). *)
Theorem privkey_prefix_normalized api k provider provider_path pool_size timeout rps :
  hex_string k = true ->
  W3Pool_init api ("0x" +:+ k) provider provider_path pool_size timeout rps =
  W3Pool_init api k provider provider_path pool_size timeout rps /\
  forall p,
    W3Pool_init api k provider provider_path pool_size timeout rps = inr p ->
    exists p',
      W3Pool_init api ("0x" +:+ k) provider provider_path pool_size timeout rps = inr p' /\
      _privkey p' = _privkey p /\ _pubkey p' = _pubkey p /\ _account p' = _account p.
Proof.
  intros H.
  assert (E : W3Pool_init api ("0x" +:+ k) provider provider_path pool_size timeout rps =
              W3Pool_init api k provider provider_path pool_size timeout rps).
  { unfold W3Pool_init. rewrite strip_0x, (startswith_0x_hex k H). reflexivity. }
  split; [exact E |].
  intros p Hp. exists p. rewrite E. auto.
Qed.

Lemma privkey_prefix_normalized_witness :
  W3Pool_init Examples.stub_keys ("0x" +:+ Examples.privkey) None
    (Some "http://127.0.0.1:8545") 2 10 10 = Examples.http_pool 2 /\
  exists p, Examples.http_pool 2 = inr p /\ length (_privkey p) = 32%nat.
Proof.
  destruct (privkey_prefix_normalized Examples.stub_keys Examples.privkey None
              (Some "http://127.0.0.1:8545") 2 10 10) as [E _].
  - reflexivity.
  - split; [exact E |]. eexists. split; reflexivity.
Defined.

(** *** The nonce *)

Example nonce_pattern_too_low :
  _invalid_nonce_pattern_search "nonce too low" = true.
Proof. reflexivity. Qed.

Example nonce_pattern_ignores_case :
  _invalid_nonce_pattern_search "replacement transaction: Nonce already used" = true.
Proof. reflexivity. Qed.

Example nonce_pattern_other_error :
  _invalid_nonce_pattern_search "insufficient funds for gas * price + value" = false.
Proof. reflexivity. Qed.

(** With no nonce cached, [with_nonce] on an open pool asks the chain. *)
Lemma with_nonce_fetches {A} pending (body : Z -> result A) s :
  _closed s = false ->
  _nonce s = None ->
  rpc_calls (snd (with_nonce pending body s)) =
    (rpc_calls s ++ [get_transaction_count_call (_account s) "pending"])%list.
Proof.
  intros Hc Hn. unfold with_nonce. rewrite Hc, Hn.
  destruct pending as [e | n]; [reflexivity |].
  destruct (body n) as [a | e |]; [reflexivity | | reflexivity].
  destruct (is_Exception e); [| reflexivity].
  destruct (_invalid_nonce_pattern_search (exn_str e)); reflexivity.
Qed.

(** C2. [with_nonce] on an open pool: when no nonce is cached the pending
    transaction count of the account is fetched (and only then); the nonce
    is handed to the block; when the block completes the cached nonce is
    the one handed out plus one; when the block raises an exception whose
    text matches the pattern, the cache is emptied, the same exception is
    raised and the next [with_nonce] fetches again; for every other
    exception the cache is left as it is and the exception is raised. *)
Theorem with_nonce_spec {A} (s : W3Pool) (pending : exn + Z) (body : Z -> result A) (n : Z) :
  _closed s = false ->
  _nonce s = Some n \/ (_nonce s = None /\ pending = inr n) ->
  exists s',
    with_nonce pending body s = (body n, s') /\
    rpc_calls s' =
      match _nonce s with
      | Some _ => rpc_calls s
      | None => (rpc_calls s ++ [get_transaction_count_call (_account s) "pending"])%list
      end /\
    _closed s' = false /\
    match body n with
    | Return _ => _nonce s' = Some (n + 1)
    | Raise e =>
        if is_Exception e && _invalid_nonce_pattern_search (exn_str e)
        then _nonce s' = None /\
             forall B pending' (body' : Z -> result B),
               rpc_calls (snd (with_nonce pending' body' s')) =
                 (rpc_calls s' ++ [get_transaction_count_call (_account s') "pending"])%list
        else _nonce s' = Some n
    | Unfinished => _nonce s' = Some n
    end.
Proof.
  intros Hc Hn. unfold with_nonce. rewrite Hc.
  assert (Hrefetch : forall s', _closed s' = false -> _nonce s' = None ->
            forall B pending' (body' : Z -> result B),
              rpc_calls (snd (with_nonce pending' body' s')) =
                (rpc_calls s' ++ [get_transaction_count_call (_account s') "pending"])%list).
  { intros s' Hc' Hn' B pending' body'. apply with_nonce_fetches; assumption. }
  destruct Hn as [Hn | [Hn ->]]; rewrite Hn;
    destruct (body n) as [a | e |] eqn:Eb;
    try (eexists; repeat split; try reflexivity; assumption);
    destruct (is_Exception e); simpl;
    try (eexists; repeat split; try reflexivity; assumption);
    destruct (_invalid_nonce_pattern_search (exn_str e));
    try (eexists; repeat split; try reflexivity; assumption);
    (eexists; split; [reflexivity |]; split; [reflexivity |];
     split; [exact Hc |]; split; [reflexivity |];
     apply Hrefetch; [exact Hc | reflexivity]).
Qed.

Lemma with_nonce_spec_witness :
  let stale : Z -> result unit := fun _ => Raise (ValueError "nonce too low") in
  exists s',
    with_nonce (inr 7) stale (Examples.pool_after 2 []) =
      (Raise (ValueError "nonce too low"), s') /\
    _nonce s' = None /\
    rpc_calls s' =
      [get_transaction_count_call "0x52908400098527886E0F7030069857D2E4169EE7" "pending"].
Proof.
  intros stale.
  destruct (with_nonce_spec (Examples.pool_after 2 []) (inr 7) stale 7)
    as (s' & Hrun & Hcalls & _ & Hnonce).
  - reflexivity.
  - right. split; reflexivity.
  - exists s'. split; [exact Hrun |].
    split; [exact (proj1 Hnonce) | exact Hcalls].
Defined.

(** *** Invariants of the pool *)

Lemma deque_remove_subset x d y : y ∈ deque_remove x d -> y ∈ d.
Proof.
  induction d as [| z d IH]; simpl; [trivial |].
  case_bool_decide as E; intros H.
  - apply elem_of_cons. right. exact H.
  - apply elem_of_cons in H as [-> | H]; [left | right; auto].
Qed.

Lemma deque_remove_NoDup x d : NoDup d -> NoDup (deque_remove x d).
Proof.
  induction 1 as [| z d Hz Hd IH]; simpl; [constructor |].
  case_bool_decide; [exact Hd |].
  constructor; [| exact IH].
  intros Hin. apply Hz. eapply deque_remove_subset. exact Hin.
Qed.

Lemma deque_remove_gone x d : NoDup d -> x ∉ deque_remove x d.
Proof.
  induction 1 as [| z d Hz Hd IH]; simpl; [apply not_elem_of_nil |].
  case_bool_decide as E; [subst; exact Hz |].
  intros H. apply elem_of_cons in H as [-> | H]; [congruence | auto].
Qed.

Lemma deque_remove_absent x d : x ∉ d -> deque_remove x d = d.
Proof.
  induction d as [| z d IH]; simpl; [reflexivity |].
  intros H. apply not_elem_of_cons in H as [Hne Hd].
  rewrite bool_decide_eq_false_2 by exact Hne. rewrite IH by exact Hd. reflexivity.
Qed.

Lemma deque_append_subset maxlen d x y :
  y ∈ deque_append maxlen d x -> y ∈ d \/ y = x.
Proof.
  unfold deque_append. intros H.
  apply list_elem_of_lookup in H as [i Hi].
  rewrite lookup_drop in Hi. apply list_elem_of_lookup_2 in Hi.
  apply elem_of_app in Hi as [Hi | Hi]; [left; exact Hi |].
  right. apply list_elem_of_singleton in Hi. exact Hi.
Qed.

Lemma deque_append_NoDup maxlen d x :
  NoDup d -> x ∉ d -> NoDup (deque_append maxlen d x).
Proof.
  intros Hd Hx. unfold deque_append.
  eapply sublist_NoDup; [| apply sublist_drop].
  apply NoDup_app. split; [exact Hd |]. split.
  - intros y Hy Hin. apply list_elem_of_singleton in Hin. subst. auto.
  - apply NoDup_singleton.
Qed.

(** What each entry point does to the fields of the pool. *)
Lemma on_guard_idle_fields id s :
  let s' := on_guard_idle id s in
  _pool_size s' = _pool_size s /\ _guards s' = _guards s /\
  _next_id s' = _next_id s /\ _closed s' = _closed s /\
  closed_guards s' = closed_guards s /\
  _idle_pool s' =
    if bool_decide (id ∈ dom (_guards s))
    then deque_append (_pool_size s) (_idle_pool s) id else _idle_pool s.
Proof.
  unfold on_guard_idle. case_bool_decide; repeat split; reflexivity.
Qed.

Lemma on_guard_close_fields id s :
  let s' := on_guard_close id s in
  _pool_size s' = _pool_size s /\ _guards s' = delete id (_guards s) /\
  _next_id s' = _next_id s /\ _closed s' = _closed s /\
  closed_guards s' = closed_guards s /\
  waiting s' = waiting s /\ notified s' = notified s /\
  _idle_pool s' =
    if bool_decide (id ∈ dom (_guards s))
    then deque_remove id (_idle_pool s) else _idle_pool s.
Proof.
  unfold on_guard_close. case_bool_decide as Hin.
  - case_bool_decide as Hidle; simpl; repeat split; try reflexivity.
    simpl in Hidle. symmetry. apply deque_remove_absent. exact Hidle.
  - repeat split; try reflexivity.
    symmetry. apply delete_id. apply not_elem_of_dom. exact Hin.
Qed.

Lemma guard_close_fields id s :
  let s' := guard_close id s in
  _pool_size s' = _pool_size s /\ _next_id s' = _next_id s /\
  _closed s' = _closed s /\
  waiting s' = waiting s /\ notified s' = notified s /\
  (id ∈ closed_guards s -> s' = s) /\
  (id ∉ closed_guards s ->
     _guards s' = delete id (_guards s) /\
     closed_guards s' = {[id]} ∪ closed_guards s /\
     _idle_pool s' =
       if bool_decide (id ∈ dom (_guards s))
       then deque_remove id (_idle_pool s) else _idle_pool s).
Proof.
  unfold guard_close. case_bool_decide as Hc.
  - repeat split; intros; try reflexivity; contradiction.
  - destruct (on_guard_close_fields id s) as (H1 & H2 & H3 & H4 & H5 & H6 & H7 & H8).
    simpl. repeat split; intros; try assumption; try contradiction.
    rewrite H5. reflexivity.
Qed.

Lemma mark_closed_fields s :
  let s' := mark_closed s in
  _pool_size s' = _pool_size s /\ _guards s' = _guards s /\
  _next_id s' = _next_id s /\ _closed s' = true /\
  closed_guards s' = closed_guards s /\ _idle_pool s' = _idle_pool s /\
  waiting s' = [] /\ notified s' = (notified s ++ waiting s)%list.
Proof. repeat split; reflexivity. Qed.

Lemma get_wait_fields task s r s' :
  get_wait task s = (r, s') ->
  _pool_size s' = _pool_size s /\ _guards s' = _guards s /\
  _next_id s' = _next_id s /\ _closed s' = _closed s /\
  closed_guards s' = closed_guards s /\
  (_idle_pool s' = _idle_pool s \/ _idle_pool s' = tail (_idle_pool s)) /\
  (forall guard, r = Return guard ->
     exists guard_id,
       _closed s = false /\
       _idle_pool s = guard_id :: _idle_pool s' /\
       _guards s !! guard_id = Some guard) /\
  (_closed s = true -> r = Raise (ValueError "w3 pool is closed") /\ s' = s).
Proof.
  unfold get_wait. intros H.
  destruct (_idle_pool s) as [| guard_id rest] eqn:Hidle; simpl in H.
  - destruct (_closed s) eqn:Hc; simpl in H; inversion H; subst; simpl;
      repeat split; intros; try reflexivity; try assumption;
      try (left; assumption); discriminate.
  - destruct (_closed s) eqn:Hc; simpl in H.
    + inversion H; subst.
      repeat split; intros; try reflexivity; try assumption;
        try (left; assumption); discriminate.
    + destruct (_guards s !! guard_id) as [guard |] eqn:Hg;
        inversion H; subst; simpl;
        repeat split; intros; try reflexivity; try assumption;
        try (right; reflexivity); try discriminate.
      match goal with Hr : Return _ = Return _ |- _ => inversion Hr; subst end.
      exists guard_id. auto.
Qed.

(** [get_locked] builds a guard, fails to connect, or goes on to the wait
    loop. *)
Lemma get_locked_cases task connect s r s' :
  get_locked task connect s = (r, s') ->
  (_idle_pool s = [] /\ Z.of_nat (size (_guards s)) < _pool_size s /\
   connect = None /\
   r = Return {| _id := _next_id s; guard_type := provider_type s |} /\
   _pool_size s' = _pool_size s /\
   _guards s' = <[_next_id s := {| _id := _next_id s; guard_type := provider_type s |}]>
                  (_guards s) /\
   _next_id s' = S (_next_id s) /\ _closed s' = _closed s /\
   closed_guards s' = closed_guards s ∖ {[_next_id s]} /\
   _idle_pool s' = _idle_pool s) \/
  (_idle_pool s = [] /\ Z.of_nat (size (_guards s)) < _pool_size s /\
   exists e, connect = Some e /\ r = Raise e /\ s' = s) \/
  (~ (_idle_pool s = [] /\ Z.of_nat (size (_guards s)) < _pool_size s) /\
   get_wait task s = (r, s')).
Proof.
  unfold get_locked. intros H.
  destruct (bool_decide (length (_idle_pool s) = 0%nat)) eqn:Hlen; simpl in H.
  - apply bool_decide_eq_true in Hlen. apply nil_length_inv in Hlen.
    destruct (Z.ltb_spec (Z.of_nat (size (_guards s))) (_pool_size s)) as [Hlt | Hge].
    + destruct connect as [e |]; simpl in H; inversion H; subst.
      * right. left. repeat split; try assumption. exists e. auto.
      * left. repeat split; try assumption; reflexivity.
    + right. right. split; [| exact H]. intros [_ Hlt]. lia.
  - apply bool_decide_eq_false in Hlen.
    right. right. split; [| exact H]. intros [Hnil _]. apply Hlen.
    rewrite Hnil. reflexivity.
Qed.

(** [wf] is kept by every entry point. *)
Lemma wf_same_guards s s' :
  wf s ->
  _pool_size s' = _pool_size s -> _guards s' = _guards s ->
  _next_id s' = _next_id s -> closed_guards s' = closed_guards s ->
  wf s'.
Proof.
  unfold wf. intros H Hp Hg Hn Hc. rewrite Hp, Hg, Hn, Hc. exact H.
Qed.

Lemma wf_delete_guard id s s' :
  wf s ->
  _pool_size s' = _pool_size s -> _guards s' = delete id (_guards s) ->
  _next_id s' = _next_id s ->
  closed_guards s' = closed_guards s \/ closed_guards s' = {[id]} ∪ closed_guards s ->
  wf s'.
Proof.
  unfold wf. intros (Hp0 & Hsize & Hids & Hlive) Hp Hg Hn Hc.
  rewrite Hp, Hg, Hn. split; [exact Hp0 |]. split; [| split].
  - rewrite map_size_delete. destruct (_guards s !! id); simpl; lia.
  - intros id' guard Hl. apply lookup_delete_Some in Hl as [_ Hl]. auto.
  - intros id' Hin. rewrite dom_delete_L in Hin.
    apply elem_of_difference in Hin as [Hin Hne].
    destruct Hc as [-> | ->]; [auto |].
    intros Hd. apply elem_of_union in Hd as [Hd | Hd]; [contradiction |].
    exact (Hlive id' Hin Hd).
Qed.

Lemma wf_on_guard_idle id s : wf s -> wf (on_guard_idle id s).
Proof.
  intros H. destruct (on_guard_idle_fields id s) as (H1 & H2 & H3 & _ & H5 & _).
  eapply wf_same_guards; eassumption.
Qed.

Lemma wf_on_guard_close id s : wf s -> wf (on_guard_close id s).
Proof.
  intros H. destruct (on_guard_close_fields id s) as (H1 & H2 & H3 & _ & H5 & _).
  eapply wf_delete_guard; eauto.
Qed.

Lemma wf_guard_close id s : wf s -> wf (guard_close id s).
Proof.
  intros H. destruct (guard_close_fields id s) as (H1 & H2 & _ & _ & _ & Hin & Hout).
  destruct (decide (id ∈ closed_guards s)) as [Hc | Hc].
  - rewrite (Hin Hc). exact H.
  - destruct (Hout Hc) as (Hg & Hd & _).
    eapply wf_delete_guard; eauto.
Qed.

Lemma wf_mark_closed s : wf s -> wf (mark_closed s).
Proof. intros H. eapply wf_same_guards; [exact H | reflexivity ..]. Qed.

Lemma wf_get_wait task s r s' : wf s -> get_wait task s = (r, s') -> wf s'.
Proof.
  intros H Hg. destruct (get_wait_fields _ _ _ _ Hg) as (H1 & H2 & H3 & _ & H5 & _).
  eapply wf_same_guards; eassumption.
Qed.

Lemma wf_get_locked task connect s r s' :
  wf s -> get_locked task connect s = (r, s') -> wf s'.
Proof.
  intros H Hg.
  destruct (get_locked_cases _ _ _ _ _ Hg)
    as [(Hidle & Hlt & _ & _ & Hp & Hgs & Hn & _ & Hc & _) | [(_ & _ & e & _ & _ & ->) | [_ Hw]]].
  - destruct H as (Hp0 & Hsize & Hids & Hlive).
    assert (Hfresh : _guards s !! _next_id s = None).
    { destruct (_guards s !! _next_id s) as [g |] eqn:E; [| reflexivity].
      apply Hids in E as [_ E]. lia. }
    unfold wf. rewrite Hp, Hgs, Hn, Hc. split; [exact Hp0 |]. split; [| split].
    + rewrite map_size_insert_None by exact Hfresh. lia.
    + intros id guard Hl. apply lookup_insert_Some in Hl as [[<- <-] | [Hne Hl]].
      * split; [reflexivity | lia].
      * apply Hids in Hl as [Hid Hlt']. split; [exact Hid | lia].
    + intros id Hin Hd. apply elem_of_difference in Hd as [Hd Hne].
      rewrite dom_insert_L in Hin. apply elem_of_union in Hin as [Hin | Hin];
        [contradiction | exact (Hlive id Hin Hd)].
  - exact H.
  - eapply wf_get_wait; eassumption.
Qed.

Lemma wf_get task connect s r s' : wf s -> get task connect s = (r, s') -> wf s'.
Proof.
  unfold get. intros H Hg. destruct (_closed s).
  - inversion Hg; subst. exact H.
  - eapply wf_get_locked; eassumption.
Qed.

Lemma wf_get_resume task s r s' : wf s -> get_resume task s = (r, s') -> wf s'.
Proof.
  unfold get_resume. intros H Hg. case_bool_decide.
  - eapply wf_get_wait; [| exact Hg].
    eapply wf_same_guards; [exact H | reflexivity ..].
  - inversion Hg; subst. exact H.
Qed.

(** A [close] during which no other task runs closes the guards of the
    snapshot one after the other and marks the pool as closed. *)
Lemma close_guards_alone guards : forall i s,
  close_guards no_others i guards s = foldl (fun s' id => guard_close id s') s guards.
Proof.
  induction guards as [| id guards IH]; intros i s; simpl; [reflexivity |].
  apply IH.
Qed.

Lemma close_alone guards s :
  close guards no_others s =
    if negb (_closed s)
    then mark_closed (foldl (fun s' id => guard_close id s') s guards)
    else s.
Proof.
  unfold close. rewrite close_guards_alone. reflexivity.
Qed.

Lemma wf_close_guards ids : forall s,
  wf s -> wf (foldl (fun s' id => guard_close id s') s ids).
Proof.
  induction ids as [| id ids IH]; intros s H; simpl; [exact H |].
  apply IH, wf_guard_close, H.
Qed.

Lemma wf_close guards s : wf s -> wf (close guards no_others s).
Proof.
  rewrite close_alone. intros H. destruct (negb (_closed s)); [| exact H].
  apply wf_mark_closed, wf_close_guards, H.
Qed.

Lemma wf_step o s : wf s -> wf (step o s).
Proof.
  intros H.
  destruct o as [task connect | task connect | task | id | id | id | id exc | |];
    simpl.
  - destruct (get task connect s) as [r s'] eqn:E. eapply wf_get; eassumption.
  - destruct (get_locked task connect s) as [r s'] eqn:E.
    eapply wf_get_locked; eassumption.
  - destruct (get_resume task s) as [r s'] eqn:E. eapply wf_get_resume; eassumption.
  - apply wf_on_guard_idle, H.
  - apply wf_on_guard_close, H.
  - apply wf_guard_close, H.
  - unfold __aexit__. destruct exc as [e |]; [destruct (is_ConnectionClosed e) |];
      simpl; auto using wf_guard_close, wf_on_guard_idle.
  - apply wf_mark_closed, H.
  - apply wf_close, H.
Qed.

Lemma wf_run ops : forall s, wf s -> wf (run ops s).
Proof.
  induction ops as [| o ops IH]; intros s H; simpl; [exact H |].
  apply IH, wf_step, H.
Qed.

Lemma wf_fresh s : fresh s -> wf s.
Proof.
  intros (Hp & _ & Hg & _). unfold wf. rewrite Hg.
  split; [exact Hp |]. split; [rewrite map_size_empty; simpl; lia |]. split.
  - intros id guard Hl. rewrite lookup_empty in Hl. discriminate.
  - intros id Hin. rewrite dom_empty_L in Hin. apply not_elem_of_empty in Hin.
    contradiction.
Qed.

(** The configured size never changes. *)
Lemma close_guards_pool_size ids : forall s,
  _pool_size (foldl (fun s' id => guard_close id s') s ids) = _pool_size s.
Proof.
  induction ids as [| id ids IH]; intros s; simpl; [reflexivity |].
  rewrite IH. apply guard_close_fields.
Qed.

Lemma step_pool_size o s : _pool_size (step o s) = _pool_size s.
Proof.
  destruct o as [task connect | task connect | task | id | id | id | id exc | |];
    simpl.
  - unfold get. destruct (_closed s); [reflexivity |].
    destruct (get_locked task connect s) as [r s'] eqn:E.
    destruct (get_locked_cases _ _ _ _ _ E)
      as [(_ & _ & _ & _ & Hp & _) | [(_ & _ & e & _ & _ & ->) | [_ Hw]]];
      simpl; [exact Hp | reflexivity | apply (get_wait_fields _ _ _ _ Hw)].
  - destruct (get_locked task connect s) as [r s'] eqn:E.
    destruct (get_locked_cases _ _ _ _ _ E)
      as [(_ & _ & _ & _ & Hp & _) | [(_ & _ & e & _ & _ & ->) | [_ Hw]]];
      simpl; [exact Hp | reflexivity | apply (get_wait_fields _ _ _ _ Hw)].
  - unfold get_resume. case_bool_decide; [| reflexivity].
    destruct (get_wait task _) as [r s'] eqn:E.
    simpl. rewrite (proj1 (get_wait_fields _ _ _ _ E)). reflexivity.
  - apply on_guard_idle_fields.
  - apply on_guard_close_fields.
  - apply guard_close_fields.
  - unfold __aexit__. destruct exc as [e |]; [destruct (is_ConnectionClosed e) |];
      simpl; first [apply guard_close_fields | apply on_guard_idle_fields].
  - reflexivity.
  - rewrite close_alone. destruct (negb (_closed s)); [| reflexivity].
    simpl. apply close_guards_pool_size.
Qed.

Lemma run_pool_size ops : forall s, _pool_size (run ops s) = _pool_size s.
Proof.
  induction ops as [| o ops IH]; intros s; simpl; [reflexivity |].
  rewrite IH. apply step_pool_size.
Qed.

(** [idle_ok] is kept as long as no guard is released twice. *)
Lemma idle_ok_on_guard_idle id s :
  idle_ok s -> id ∉ _idle_pool s -> idle_ok (on_guard_idle id s).
Proof.
  intros [Hnd Hsub] Hid.
  destruct (on_guard_idle_fields id s) as (_ & Hg & _ & _ & _ & Hi).
  unfold idle_ok. rewrite Hg, Hi. case_bool_decide as Hin; [| split; assumption].
  split; [apply deque_append_NoDup; assumption |].
  intros x Hx. apply deque_append_subset in Hx as [Hx | ->]; auto.
Qed.

Lemma idle_ok_delete_guard id s s' :
  idle_ok s ->
  _guards s' = delete id (_guards s) ->
  _idle_pool s' =
    (if bool_decide (id ∈ dom (_guards s))
     then deque_remove id (_idle_pool s) else _idle_pool s) ->
  idle_ok s'.
Proof.
  intros [Hnd Hsub] Hg Hi. unfold idle_ok. rewrite Hg, Hi.
  case_bool_decide as Hin.
  - split; [apply deque_remove_NoDup, Hnd |].
    intros x Hx. rewrite dom_delete_L. apply elem_of_difference. split.
    + apply Hsub. eapply deque_remove_subset. exact Hx.
    + intros Hs. apply elem_of_singleton in Hs. subst.
      exact (deque_remove_gone _ _ Hnd Hx).
  - split; [exact Hnd |].
    intros x Hx. rewrite delete_id by (apply not_elem_of_dom; exact Hin). auto.
Qed.

Lemma idle_ok_on_guard_close id s : idle_ok s -> idle_ok (on_guard_close id s).
Proof.
  intros H.
  destruct (on_guard_close_fields id s) as (_ & Hg & _ & _ & _ & _ & _ & Hi).
  eapply idle_ok_delete_guard; eassumption.
Qed.

Lemma idle_ok_guard_close id s : idle_ok s -> idle_ok (guard_close id s).
Proof.
  intros H. destruct (guard_close_fields id s) as (_ & _ & _ & _ & _ & Hin & Hout).
  destruct (decide (id ∈ closed_guards s)) as [Hc | Hc].
  - rewrite (Hin Hc). exact H.
  - destruct (Hout Hc) as (Hg & _ & Hi). eapply idle_ok_delete_guard; eassumption.
Qed.

Lemma idle_ok_get_wait task s r s' :
  idle_ok s -> get_wait task s = (r, s') -> idle_ok s'.
Proof.
  intros [Hnd Hsub] Hw.
  destruct (get_wait_fields _ _ _ _ Hw) as (_ & Hg & _ & _ & _ & Hi & _).
  unfold idle_ok. rewrite Hg. destruct Hi as [-> | ->]; [split; assumption |].
  destruct (_idle_pool s) as [| x rest]; simpl; [split; assumption |].
  apply NoDup_cons in Hnd as [_ Hnd]. split; [exact Hnd |].
  intros y Hy. apply Hsub. apply elem_of_cons. right. exact Hy.
Qed.

Lemma idle_ok_get_locked task connect s r s' :
  idle_ok s -> get_locked task connect s = (r, s') -> idle_ok s'.
Proof.
  intros H Hg.
  destruct (get_locked_cases _ _ _ _ _ Hg)
    as [(Hidle & _ & _ & _ & _ & Hgs & _ & _ & _ & Hi) | [(_ & _ & e & _ & _ & ->) | [_ Hw]]].
  - unfold idle_ok. rewrite Hi, Hidle. split; [constructor |].
    intros x Hx. apply not_elem_of_nil in Hx. contradiction.
  - exact H.
  - eapply idle_ok_get_wait; eassumption.
Qed.

Lemma idle_ok_close_guards ids : forall s,
  idle_ok s -> idle_ok (foldl (fun s' id => guard_close id s') s ids).
Proof.
  induction ids as [| id ids IH]; intros s H; simpl; [exact H |].
  apply IH, idle_ok_guard_close, H.
Qed.

Lemma idle_ok_step o s :
  idle_ok s ->
  match released o with Some id => id ∉ _idle_pool s | None => True end ->
  idle_ok (step o s).
Proof.
  intros H Hrel.
  destruct o as [task connect | task connect | task | id | id | id | id exc | |];
    simpl in *.
  - unfold get. destruct (_closed s); [exact H |].
    destruct (get_locked task connect s) as [r s'] eqn:E.
    eapply idle_ok_get_locked; eassumption.
  - destruct (get_locked task connect s) as [r s'] eqn:E.
    eapply idle_ok_get_locked; eassumption.
  - unfold get_resume. case_bool_decide; [| exact H].
    destruct (get_wait task _) as [r s'] eqn:E.
    eapply idle_ok_get_wait; [| exact E]. exact H.
  - apply idle_ok_on_guard_idle; assumption.
  - apply idle_ok_on_guard_close, H.
  - apply idle_ok_guard_close, H.
  - unfold __aexit__. destruct exc as [e |]; [destruct (is_ConnectionClosed e) |];
      simpl; first [apply idle_ok_guard_close, H
                   | apply idle_ok_on_guard_idle; assumption].
  - exact H.
  - rewrite close_alone. destruct (negb (_closed s)); [| exact H].
    apply (idle_ok_close_guards _ s H).
Qed.

Lemma idle_ok_run ops : forall s,
  idle_ok s -> released_once ops s -> idle_ok (run ops s).
Proof.
  induction ops as [| o ops IH]; intros s H Hrel; simpl; [exact H |].
  destruct Hrel as [Ho Hrest].
  apply IH; [apply idle_ok_step; assumption | exact Hrest].
Qed.

Lemma idle_ok_fresh s : fresh s -> idle_ok s.
Proof.
  intros (_ & Hi & _). unfold idle_ok. rewrite Hi. split; [constructor |].
  intros id Hin. apply not_elem_of_nil in Hin. contradiction.
Qed.

(** The constructor builds a fresh pool. *)
Lemma W3Pool_init_fresh api privkey provider provider_path pool_size timeout rps s :
  W3Pool_init api privkey provider provider_path pool_size timeout rps = inr s ->
  fresh s.
Proof.
  unfold W3Pool_init. intros H.
  destruct (fromhex _) as [e | bytes]; [discriminate |].
  destruct (PrivateKey api bytes) as [e | key]; [discriminate |].
  destruct provider as [p |].
  - simpl in H. inversion H; subst. unfold fresh; simpl. repeat split; lia.
  - destruct provider_path as [path |]; [| discriminate].
    destruct (startswith "http" path).
    + destruct (Z.ltb_spec pool_size 0); [discriminate |].
      inversion H; subst. unfold fresh; simpl. repeat split; lia.
    + destruct (startswith "ws" path); [| discriminate].
      destruct (Z.ltb_spec pool_size 0); [discriminate |].
      inversion H; subst. unfold fresh; simpl. repeat split; lia.
Qed.

(** How a guard that is handed out was obtained. *)
Lemma acquires_cases s guard s' :
  wf s ->
  acquires s guard s' ->
  (exists rest,
     _idle_pool s = _id guard :: rest /\ _idle_pool s' = rest /\
     _guards s !! _id guard = Some guard /\ _guards s' = _guards s) \/
  (_idle_pool s = [] /\ Z.of_nat (size (_guards s)) < _pool_size s /\
   _id guard = _next_id s /\ _guards s !! _id guard = None /\
   _guards s' = <[_id guard := guard]> (_guards s)).
Proof.
  intros Hwf Hacq.
  assert (Hwait : forall task s1,
            _idle_pool s1 = _idle_pool s -> _guards s1 = _guards s ->
            get_wait task s1 = (Return guard, s') ->
            exists rest,
              _idle_pool s = _id guard :: rest /\ _idle_pool s' = rest /\
              _guards s !! _id guard = Some guard /\ _guards s' = _guards s).
  { intros task s1 Hi Hg Hw.
    destruct (get_wait_fields _ _ _ _ Hw) as (_ & Hg' & _ & _ & _ & _ & Hret & _).
    destruct (Hret guard eq_refl) as (guard_id & _ & Hidle & Hl).
    rewrite Hg in Hl. rewrite Hi in Hidle.
    destruct Hwf as (_ & _ & Hids & _). destruct (Hids _ _ Hl) as [Hid _].
    subst guard_id. exists (_idle_pool s'). rewrite Hg', Hg. auto. }
  assert (Hlocked : forall task connect,
            get_locked task connect s = (Return guard, s') ->
            (exists rest,
               _idle_pool s = _id guard :: rest /\ _idle_pool s' = rest /\
               _guards s !! _id guard = Some guard /\ _guards s' = _guards s) \/
            (_idle_pool s = [] /\ Z.of_nat (size (_guards s)) < _pool_size s /\
             _id guard = _next_id s /\ _guards s !! _id guard = None /\
             _guards s' = <[_id guard := guard]> (_guards s))).
  { intros task connect Hg.
    destruct (get_locked_cases _ _ _ _ _ Hg)
      as [(Hidle & Hlt & _ & Hr & _ & Hgs & _) | [(_ & _ & e & _ & Hr & _) | [_ Hw]]].
    - right. inversion Hr; subst guard. simpl.
      split; [exact Hidle |]. split; [exact Hlt |]. split; [reflexivity |].
      split; [| exact Hgs].
      destruct Hwf as (_ & _ & Hids & _).
      destruct (_guards s !! _next_id s) as [g |] eqn:E; [| reflexivity].
      apply Hids in E as [_ E]. lia.
    - discriminate.
    - left. eapply Hwait; [reflexivity | reflexivity | exact Hw]. }
  destruct Hacq as [(task & connect & Hg) | [(task & connect & Hg) | (task & Hg)]].
  - unfold get in Hg. destruct (_closed s); [discriminate |].
    eapply Hlocked. exact Hg.
  - eapply Hlocked. exact Hg.
  - unfold get_resume in Hg. case_bool_decide; [| discriminate].
    left. eapply Hwait; [| | exact Hg]; reflexivity.
Qed.

(** C3 (as amended). From a fresh pool, after every sequence of [get],
    [on_guard_idle], [on_guard_close], guard exits and closes, run in any
    interleaving: the number of live guards is at most the configured pool
    size; a guard is handed out only by popping the head of the idle queue
    or by building a new guard while the number of live guards is below
    the pool size; and, provided no guard is released while it already is
    in the idle queue, every id in the idle queue is in the guard table. *)
Theorem pool_capacity_invariant s0 ops :
  fresh s0 ->
  let s := run ops s0 in
  Z.of_nat (size (_guards s)) <= _pool_size s0 /\
  (released_once ops s0 ->
   forall id, id ∈ _idle_pool s -> id ∈ dom (_guards s)) /\
  (forall guard s',
     acquires s guard s' ->
     (exists rest,
        _idle_pool s = _id guard :: rest /\ _idle_pool s' = rest /\
        _guards s !! _id guard = Some guard /\ _guards s' = _guards s) \/
     (_idle_pool s = [] /\ Z.of_nat (size (_guards s)) < _pool_size s0 /\
      _id guard = _next_id s /\ _guards s !! _id guard = None /\
      _guards s' = <[_id guard := guard]> (_guards s))).
Proof.
  intros Hfresh s.
  assert (Hwf : wf s) by (apply wf_run, wf_fresh, Hfresh).
  assert (Hsize : _pool_size s = _pool_size s0) by apply run_pool_size.
  split; [| split].
  - rewrite <- Hsize. apply Hwf.
  - intros Hrel. apply idle_ok_run; [apply idle_ok_fresh, Hfresh | exact Hrel].
  - intros guard s' Hacq. rewrite <- Hsize. apply acquires_cases; assumption.
Qed.

Lemma pool_capacity_invariant_witness :
  exists s0,
    Examples.http_pool 2 = inr s0 /\
    let s := run [Get 1 None; Get 2 None; Get 3 None; Exit 1 None; Resume 3] s0 in
    Z.of_nat (size (_guards s)) <= 2 /\
    forall id, id ∈ _idle_pool s -> id ∈ dom (_guards s).
Proof.
  destruct (Examples.http_pool 2) as [e | s0] eqn:E; [discriminate |].
  exists s0. split; [reflexivity |].
  assert (Hfresh : fresh s0).
  { unfold Examples.http_pool in E. eapply W3Pool_init_fresh. exact E. }
  assert (Hsize : _pool_size s0 = 2).
  { vm_compute in E. inversion E. reflexivity. }
  destruct (pool_capacity_invariant s0
              [Get 1%nat None; Get 2%nat None; Get 3%nat None; Exit 1%nat None; Resume 3%nat]
              Hfresh) as (Hcap & Hidle & _).
  rewrite Hsize in Hcap. split; [exact Hcap |].
  apply Hidle.
  vm_compute in E. inversion E; subst s0.
  vm_compute. repeat split; apply not_elem_of_nil.
Defined.

(** C3, as stated, fails on the idle queue: in a pool of size two, build
    guard 1, report it idle twice and then evict it.  [deque.remove] takes
    one of the two entries out, and the id stays in the idle queue without
    being in the guard table; the next [get] pops it and fails with a
    [KeyError]. *)
Lemma idle_queue_outlives_guard :
  exists s0,
    Examples.http_pool 2 = inr s0 /\
    fresh s0 /\
    let s := run [Get 1 None; OnGuardIdle 1; OnGuardIdle 1; OnGuardClose 1] s0 in
    _idle_pool s = [1%nat] /\
    _guards s = ∅ /\
    ~ (forall id, id ∈ _idle_pool s -> id ∈ dom (_guards s)) /\
    fst (get 2 None s) = Raise (KeyError 1).
Proof.
  destruct (Examples.http_pool 2) as [e | s0] eqn:E; [discriminate |].
  exists s0. split; [reflexivity |].
  split; [eapply W3Pool_init_fresh; exact E |].
  vm_compute in E. inversion E; subst s0.
  split; [reflexivity |]. split; [reflexivity |]. split; [| reflexivity].
  intros H. specialize (H 1%nat).
  assert (Hin : 1%nat ∈ dom (∅ : gmap nat W3Guard)) by (apply H; left).
  rewrite dom_empty_L in Hin. exact (not_elem_of_empty _ Hin).
Qed.

(** *** Eviction *)

(** A guard that is gone stays gone, whatever is run afterwards. *)
Lemma evicted_same_guards id s s' :
  evicted id s ->
  _guards s' = _guards s -> _next_id s' = _next_id s ->
  (forall x, x ∈ _idle_pool s' -> x ∈ _idle_pool s \/ x ∈ dom (_guards s)) ->
  evicted id s'.
Proof.
  unfold evicted. intros (Hg & Hi & Hn) Eg En Hsub. rewrite Eg, En.
  split; [exact Hg |]. split; [| exact Hn].
  intros Hin. apply Hsub in Hin as [Hin | Hin]; contradiction.
Qed.

Lemma evicted_delete_guard id id' s s' :
  evicted id s ->
  _guards s' = delete id' (_guards s) -> _next_id s' = _next_id s ->
  (forall x, x ∈ _idle_pool s' -> x ∈ _idle_pool s) ->
  evicted id s'.
Proof.
  unfold evicted. intros (Hg & Hi & Hn) Eg En Hsub. rewrite Eg, En.
  split; [| split; [| exact Hn]].
  - rewrite dom_delete_L. intros Hin. apply elem_of_difference in Hin as [Hin _].
    contradiction.
  - intros Hin. apply Hsub in Hin. contradiction.
Qed.

Lemma evicted_on_guard_idle id id' s : evicted id s -> evicted id (on_guard_idle id' s).
Proof.
  intros H. destruct (on_guard_idle_fields id' s) as (_ & Hg & Hn & _ & _ & Hi).
  eapply evicted_same_guards; [exact H | exact Hg | exact Hn |].
  intros x Hx. rewrite Hi in Hx. case_bool_decide as Hin; [| left; exact Hx].
  apply deque_append_subset in Hx as [Hx | ->]; [left | right]; assumption.
Qed.

Lemma evicted_on_guard_close id id' s : evicted id s -> evicted id (on_guard_close id' s).
Proof.
  intros H. destruct (on_guard_close_fields id' s) as (_ & Hg & Hn & _ & _ & _ & _ & Hi).
  eapply evicted_delete_guard; [exact H | exact Hg | exact Hn |].
  intros x Hx. rewrite Hi in Hx. case_bool_decide; [| exact Hx].
  eapply deque_remove_subset. exact Hx.
Qed.

Lemma evicted_guard_close id id' s : evicted id s -> evicted id (guard_close id' s).
Proof.
  intros H. destruct (guard_close_fields id' s) as (_ & Hn & _ & _ & _ & Hin & Hout).
  destruct (decide (id' ∈ closed_guards s)) as [Hc | Hc].
  - rewrite (Hin Hc). exact H.
  - destruct (Hout Hc) as (Hg & _ & Hi).
    eapply evicted_delete_guard; [exact H | exact Hg | exact Hn |].
    intros x Hx. rewrite Hi in Hx. case_bool_decide; [| exact Hx].
    eapply deque_remove_subset. exact Hx.
Qed.

Lemma evicted_get_wait id task s r s' :
  evicted id s -> get_wait task s = (r, s') -> evicted id s'.
Proof.
  intros H Hw. destruct (get_wait_fields _ _ _ _ Hw) as (_ & Hg & Hn & _ & _ & Hi & _).
  eapply evicted_same_guards; [exact H | exact Hg | exact Hn |].
  intros x Hx. left. destruct Hi as [Hi | Hi]; rewrite Hi in Hx; [exact Hx |].
  destruct (_idle_pool s); [exact Hx |]. apply elem_of_cons. right. exact Hx.
Qed.

Lemma evicted_get_locked id task connect s r s' :
  evicted id s -> get_locked task connect s = (r, s') -> evicted id s'.
Proof.
  intros H Hg.
  destruct (get_locked_cases _ _ _ _ _ Hg)
    as [(_ & _ & _ & _ & _ & Hgs & Hn & _ & _ & Hi) | [(_ & _ & e & _ & _ & ->) | [_ Hw]]].
  - destruct H as (Hd & Hidle & Hlt). unfold evicted. rewrite Hgs, Hn, Hi.
    split; [| split; [exact Hidle | lia]].
    rewrite dom_insert_L. intros Hin. apply elem_of_union in Hin as [Hin | Hin];
      [| contradiction].
    apply elem_of_singleton in Hin. lia.
  - exact H.
  - eapply evicted_get_wait; eassumption.
Qed.

Lemma evicted_close_guards id ids : forall s,
  evicted id s -> evicted id (foldl (fun s' id' => guard_close id' s') s ids).
Proof.
  induction ids as [| id' ids IH]; intros s H; simpl; [exact H |].
  apply IH, evicted_guard_close, H.
Qed.

Lemma evicted_step id o s : evicted id s -> evicted id (step o s).
Proof.
  intros H.
  destruct o as [task connect | task connect | task | id' | id' | id' | id' exc | |];
    simpl.
  - unfold get. destruct (_closed s); [exact H |].
    destruct (get_locked task connect s) as [r s'] eqn:E.
    eapply evicted_get_locked; eassumption.
  - destruct (get_locked task connect s) as [r s'] eqn:E.
    eapply evicted_get_locked; eassumption.
  - unfold get_resume. case_bool_decide; [| exact H].
    destruct (get_wait task _) as [r s'] eqn:E.
    eapply evicted_get_wait; [| exact E]. exact H.
  - apply evicted_on_guard_idle, H.
  - apply evicted_on_guard_close, H.
  - apply evicted_guard_close, H.
  - unfold __aexit__. destruct exc as [e |]; [destruct (is_ConnectionClosed e) |];
      simpl; auto using evicted_guard_close, evicted_on_guard_idle.
  - exact H.
  - rewrite close_alone. destruct (negb (_closed s)); [| exact H].
    apply (evicted_close_guards _ _ s H).
Qed.

Lemma evicted_run id ops : forall s, evicted id s -> evicted id (run ops s).
Proof.
  induction ops as [| o ops IH]; intros s H; simpl; [exact H |].
  apply IH, evicted_step, H.
Qed.

(** A guard that is gone is never handed out. *)
Lemma evicted_not_acquired id s guard s' :
  wf s -> evicted id s -> acquires s guard s' -> _id guard ≠ id.
Proof.
  intros Hwf (Hd & _ & Hlt) Hacq.
  destruct (acquires_cases _ _ _ Hwf Hacq)
    as [(rest & _ & _ & Hl & _) | (_ & _ & Hid & _)].
  - intros <-. apply Hd. eapply elem_of_dom_2. exact Hl.
  - lia.
Qed.

(** C5 (as amended). When the block run with a live guard that is checked
    out raises a connection-closed error, the exit of the guard closes the
    guard instead of reporting it idle: its id leaves the guard table, is
    not in the idle queue, and is never handed out again by whatever runs
    afterwards.  The exit returns [True]: the exception is suppressed, and
    the [async with] statement ends normally instead of raising. *)
Theorem connection_closed_evicts_guard s0 ops guard e :
  fresh s0 ->
  let s := run ops s0 in
  _guards s !! _id guard = Some guard ->
  _id guard ∉ _idle_pool s ->
  is_ConnectionClosed e = true ->
  exists s',
    __aexit__ (_id guard) (Some e) s = (true, s') /\
    (forall A, async_with (A := A) guard (Raise e) s = (Return None, s')) /\
    (_id guard ∉ dom (_guards s')) /\
    (_id guard ∉ _idle_pool s') /\
    (_id guard ∈ closed_guards s') /\
    forall ops',
      let s'' := run ops' s' in
      (_id guard ∉ dom (_guards s'')) /\
      (_id guard ∉ _idle_pool s'') /\
      forall g s3, acquires s'' g s3 -> _id g ≠ _id guard.
Proof.
  intros Hfresh s Hlive Hout He.
  assert (Hwf : wf s) by (apply wf_run, wf_fresh, Hfresh).
  exists (guard_close (_id guard) s).
  assert (Hexit : __aexit__ (_id guard) (Some e) s = (true, guard_close (_id guard) s)).
  { unfold __aexit__. rewrite He. reflexivity. }
  assert (Hopen : _id guard ∉ closed_guards s).
  { destruct Hwf as (_ & _ & _ & Hl). apply Hl. eapply elem_of_dom_2. exact Hlive. }
  destruct (guard_close_fields (_id guard) s) as (_ & Hn & _ & _ & _ & _ & Hfields).
  destruct (Hfields Hopen) as (Hg & Hc & Hi).
  assert (Hev : evicted (_id guard) (guard_close (_id guard) s)).
  { unfold evicted. rewrite Hg, Hi, Hn. split; [| split].
    - rewrite dom_delete_L. intros Hin.
      apply elem_of_difference in Hin as [_ Hin]. apply Hin. apply elem_of_singleton.
      reflexivity.
    - case_bool_decide; [| exact Hout].
      intros Hin. apply Hout. eapply deque_remove_subset. exact Hin.
    - destruct Hwf as (_ & _ & Hids & _). apply (Hids _ _ Hlive). }
  split; [exact Hexit |].
  split; [intros A; unfold async_with; rewrite Hexit; reflexivity |].
  split; [apply Hev |]. split; [apply Hev |].
  split; [rewrite Hc; apply elem_of_union; left; apply elem_of_singleton; reflexivity |].
  intros ops' s''.
  assert (Hev' : evicted (_id guard) s'') by (apply evicted_run, Hev).
  split; [apply Hev' |]. split; [apply Hev' |].
  intros g s3 Hacq. eapply evicted_not_acquired; [| exact Hev' | exact Hacq].
  apply wf_run, wf_guard_close, Hwf.
Qed.

Lemma example_pool_fresh : fresh (Examples.pool_after 2 []).
Proof.
  apply (W3Pool_init_fresh Examples.stub_keys Examples.privkey None
           (Some "http://127.0.0.1:8545") 2 10 10).
  reflexivity.
Qed.

Lemma connection_closed_evicts_guard_witness :
  let guard := {| _id := 1; guard_type := HTTP |} in
  let e := ConnectionClosed "no close frame received or sent" in
  exists s',
    __aexit__ 1 (Some e) (Examples.pool_after 2 [Get 1 None]) = (true, s') /\
    (1%nat ∉ dom (_guards s')) /\
    forall g s3, acquires (run [Get 2 None; Exit 1 None] s') g s3 -> _id g ≠ 1%nat.
Proof.
  intros guard e.
  destruct (connection_closed_evicts_guard (Examples.pool_after 2 [])
              [Get 1%nat None] guard e example_pool_fresh)
    as (s' & Hexit & _ & Hgone & _ & _ & Hlater).
  - reflexivity.
  - vm_compute. apply not_elem_of_nil.
  - reflexivity.
  - exists s'. split; [exact Hexit |]. split; [exact Hgone |].
    apply (Hlater [Get 2%nat None; Exit 1%nat None]).
Defined.

(** C5, as stated, fails on the error: take the first guard out of a fresh
    pool and let the block run with it raise a connection-closed error.
    The [async with] statement does not raise it: the exit of the guard
    returns [True], the exception is suppressed and the statement ends
    normally. *)
Lemma connection_closed_is_suppressed :
  let e := ConnectionClosed "no close frame received or sent" in
  let s0 := Examples.pool_after 2 [] in
  exists guard s1,
    fresh s0 /\
    get 1 None s0 = (Return guard, s1) /\
    fst (__aexit__ (_id guard) (Some e) s1) = true /\
    fst (async_with (A := Z) guard (Raise e) s1) = Return None /\
    fst (async_with (A := Z) guard (Raise e) s1) ≠ Raise e.
Proof.
  intros e s0.
  do 2 eexists. split; [exact example_pool_fresh |]. split; [reflexivity |].
  split; [reflexivity |]. split; [reflexivity | discriminate].
Qed.

(** *** Closing the pool *)

(** A closed pool stays closed. *)
Lemma closed_close_guards ids : forall s,
  _closed (foldl (fun s' id => guard_close id s') s ids) = _closed s.
Proof.
  induction ids as [| id ids IH]; intros s; simpl; [reflexivity |].
  rewrite IH. apply guard_close_fields.
Qed.

























(** * Further properties of the node lifecycle manager *)

(** *** The status mapping *)

(** The mapping of chain statuses never yields [Init] or [Error], and it
    identifies two chain statuses only when both are [AVAILABLE] or
    [BUSY]. *)
Theorem convert_node_status_image (a b : ChainNodeStatus) :
  convert_node_status a ≠ Init /\
  convert_node_status a ≠ Error /\
  (convert_node_status a = convert_node_status b ->
   a = b \/ (a ∈ [AVAILABLE; BUSY] /\ b ∈ [AVAILABLE; BUSY])) /\
  (convert_node_status a = Running <-> a ∈ [AVAILABLE; BUSY]).
Proof.
  split; [destruct a; discriminate |].
  split; [destruct a; discriminate |].
  split.
  - destruct a, b; simpl; intros H; try discriminate; auto;
      right; split; set_solver.
  - split.
    + destruct a; simpl; intros H; try discriminate; set_solver.
    + intros H. destruct a; try reflexivity; exfalso; set_solver.
Qed.

(** *** Waiting for the paused status *)

Lemma wait_for_pause_loop_pending fuel pending w info :
  node_info_answer (relay w) (polls w) = inr info ->
  NodeInfo.status info = PENDING_PAUSE ->
  _wait_for_pause_loop (S fuel) pending w =
    _wait_for_pause_loop fuel false (observe PendingPause pending w).
Proof.
  intros Ha Hs. simpl.
  unfold _get_node_status, bind, relay_node_get_node_info.
  rewrite Ha. simpl. rewrite Hs. simpl.
  unfold observe. destruct pending; reflexivity.
Qed.

Lemma wait_for_pause_loop_paused fuel pending w info :
  node_info_answer (relay w) (polls w) = inr info ->
  NodeInfo.status info = PAUSED ->
  _wait_for_pause_loop (S fuel) pending w = (Return tt, observe Paused pending w).
Proof.
  intros Ha Hs. simpl.
  unfold _get_node_status, bind, relay_node_get_node_info.
  rewrite Ha. simpl. rewrite Hs. simpl.
  unfold observe. destruct pending; reflexivity.
Qed.

Lemma wait_for_pause_loop_illegal fuel pending w info :
  node_info_answer (relay w) (polls w) = inr info ->
  convert_node_status (NodeInfo.status info) ∉ [Paused; PendingPause] ->
  _wait_for_pause_loop (S fuel) pending w =
    (Raise (AssertionError "Node status on chain is not paused or pending"),
     with_relay_call w node_get_node_info_call (S (polls w))).
Proof.
  intros Ha Hs. simpl.
  unfold _get_node_status, bind, relay_node_get_node_info.
  rewrite Ha. simpl.
  rewrite bool_decide_eq_false_2 by exact Hs. reflexivity.
Qed.

Lemma wait_for_pause_loop_prefix k : forall fuel pending w,
  (forall i, (i < k)%nat ->
     exists info, node_info_answer (relay w) (polls w + i) = inr info /\
                  NodeInfo.status info = PENDING_PAUSE) ->
  _wait_for_pause_loop (k + fuel) pending w =
    _wait_for_pause_loop fuel (match k with O => pending | _ => false end)
      (observe_all (replicate k PendingPause) pending w).
Proof.
  induction k as [| k IH]; intros fuel pending w H; simpl.
  - reflexivity.
  - destruct (H 0%nat ltac:(lia)) as (info & Ha & Hs).
    rewrite Nat.add_0_r in Ha.
    change (_wait_for_pause_loop (S (k + fuel)) pending w =
            _wait_for_pause_loop fuel false
              (observe_all (replicate k PendingPause) false
                 (observe PendingPause pending w))).
    rewrite (wait_for_pause_loop_pending _ _ _ _ Ha Hs).
    rewrite IH.
    + destruct k; reflexivity.
    + intros i Hi. rewrite observe_relay, observe_polls.
      destruct (H (S i) ltac:(lia)) as (info' & Ha' & Hs').
      exists info'. split; [| exact Hs'].
      rewrite <- Ha'. f_equal. lia.
Qed.

Lemma pause_returns_wait w0 w1 (wait : nat -> M unit) :
  pause w0 = (Return wait, w1) ->
  wait = fun fuel => _wrap_tx_error (_wait_for_pause fuel).
Proof.
  unfold pause, bind. intros H.
  destruct (_wrap_tx_error _ w0) as [[a | e |] w']; simpl in H;
    try discriminate.
  unfold ret in H. congruence.
Qed.

(** The wait of [pause], on a relay that reports the pending-pause status
    [k] times and then [last]: it is still polling while only pending
    statuses were seen; it returns once [last] is [PAUSED], with every
    observed status written to the cache and the transaction status set to
    [Success] right after the first one; it fails with the assertion error,
    recorded as transaction status [Error], when [last] maps to anything
    but [Paused] or [PendingPause]. *)
Theorem pause_wait_observations w0 w1 wait w k last :
  pause w0 = (Return wait, w1) ->
  (forall i, (i < k)%nat ->
     exists info, node_info_answer (relay w) (polls w + i) = inr info /\
                  NodeInfo.status info = PENDING_PAUSE) ->
  node_info_answer (relay w) (polls w + k) = inr last ->
  NodeInfo.status last ≠ PENDING_PAUSE ->
  (forall fuel, (fuel <= k)%nat -> fst (wait fuel w) = Unfinished) /\
  (forall fuel, (k < fuel)%nat ->
     exists r w',
       wait fuel w = (r, w') /\
       polls w' = (polls w + S k)%nat /\
       (NodeInfo.status last = PAUSED ->
          r = Return tt /\
          node_status_of w' = Paused /\
          tx_state (state_cache w') = TxState.mk TxSuccess "" /\
          cache_writes w' =
            (cache_writes w ++ wait_writes (replicate k PendingPause ++ [Paused]))%list) /\
       (NodeInfo.status last ≠ PAUSED ->
          r = Raise (AssertionError "Node status on chain is not paused or pending") /\
          tx_state (state_cache w') =
            TxState.mk TxError "Node status on chain is not paused or pending" /\
          cache_writes w' =
            (cache_writes w ++ wait_writes (replicate k PendingPause) ++
             [set_tx_state_call TxError
                "Node status on chain is not paused or pending"])%list)).
Proof.
  intros Hwait Hpending Hlast Hnp.
  apply pause_returns_wait in Hwait. subst wait.
  split.
  - intros fuel Hle. unfold _wrap_tx_error, _wait_for_pause.
    replace fuel with (fuel + 0)%nat at 1 by lia.
    rewrite wait_for_pause_loop_prefix; [reflexivity |].
    intros i Hi. apply Hpending. lia.
  - intros fuel Hlt.
    destruct fuel as [| fuel]; [lia |].
    set (wk := observe_all (replicate k PendingPause) true w).
    assert (Hloop : _wait_for_pause (S fuel) w =
                    _wait_for_pause_loop (S (fuel - k))
                      (match k with O => true | _ => false end) wk).
    { unfold _wait_for_pause.
      replace (S fuel) with (k + S (fuel - k))%nat at 1 by lia.
      apply wait_for_pause_loop_prefix. exact Hpending. }
    assert (Hans : node_info_answer (relay wk) (polls wk) = inr last).
    { unfold wk. rewrite observe_all_relay, observe_all_polls, length_replicate.
      exact Hlast. }
    assert (Hflag : match replicate k PendingPause with [] => true | _ => false end =
                    match k with O => true | _ => false end)
      by (destruct k; reflexivity).
    destruct (decide (NodeInfo.status last = PAUSED)) as [Hq | Hq].
    + exists (Return tt), (observe_all (replicate k PendingPause ++ [Paused]) true w).
      split.
      { unfold _wrap_tx_error. rewrite Hloop.
        rewrite (wait_for_pause_loop_paused _ _ _ _ Hans Hq).
        rewrite observe_all_app. simpl. rewrite Hflag. reflexivity. }
      split.
      { rewrite observe_all_polls, length_app, length_replicate. simpl. lia. }
      split; [| intros Hc; contradiction].
      intros _. split; [reflexivity |].
      split; [apply observe_all_node_status |].
      split; [| apply observe_all_writes].
      apply observe_all_tx_state. destruct (replicate k PendingPause); discriminate.
    + eexists _, _. split.
      { unfold _wrap_tx_error. rewrite Hloop.
        rewrite (wait_for_pause_loop_illegal _ _ _ _ Hans); [reflexivity |].
        destruct (NodeInfo.status last); simpl; try congruence;
          intros Hin; repeat (apply elem_of_cons in Hin as [Hin | Hin];
                              [discriminate |]);
          inversion Hin. }
      split; [simpl; unfold wk; rewrite observe_all_polls, length_replicate; lia |].
      split; [intros Hc; contradiction |].
      intros _. split; [reflexivity |]. split; [reflexivity |].
      simpl. unfold wk. rewrite observe_all_writes, <- app_assoc. reflexivity.
Qed.

Lemma pause_wait_observations_witness :
  let w0 := Examples.world Running TxNone [PENDING_PAUSE; PAUSED] 0 in
  let w1 := snd (pause w0) in
  exists r w',
    _wrap_tx_error (_wait_for_pause 3) w1 = (r, w') /\
    r = Return tt /\
    node_status_of w' = Paused /\
    tx_state (state_cache w') = TxState.mk TxSuccess "".
Proof.
  intros w0 w1.
  assert (H := pause_wait_observations w0 w1
                 (fun fuel => _wrap_tx_error (_wait_for_pause fuel)) w1 1
                 (Examples.info PAUSED 1%float)).
  destruct H as (_ & H).
  - reflexivity.
  - intros i Hi. exists (Examples.info PENDING_PAUSE 1%float).
    destruct i as [| i]; [split; reflexivity | lia].
  - reflexivity.
  - discriminate.
  - destruct (H 3%nat ltac:(lia)) as (r & w' & Hrun & _ & Hq & _).
    destruct (Hq eq_refl) as (Hr & Hn & Ht & _).
    exists r, w'. repeat split; assumption.
Defined.

(** *** The relay's answer to a lifecycle command *)

Lemma wrap_tx_error_raise {A} (body : M A) w e w' :
  body w = (Raise e, w') ->
  exists w'',
    _wrap_tx_error body w = (Raise e, w'') /\
    relay_calls w'' = relay_calls w' /\
    polls w'' = polls w' /\
    node_state (state_cache w'') = node_state (state_cache w') /\
    cache_writes w'' = (cache_writes w' ++ tx_error_writes e)%list.
Proof.
  intros H. unfold _wrap_tx_error. rewrite H.
  destruct e; simpl; eexists; (split; [reflexivity |]);
    repeat split; simpl; try reflexivity; symmetry; apply app_nil_r.
Qed.

(** [stop], [pause] and [resume] on a node whose cached state lets them
    through: exactly one request goes to the relay, the cached node state
    is not touched, and the transaction status becomes [Pending] when the
    relay accepts; when the relay raises, the exception is raised again,
    after it was recorded as transaction status [Error] if it is a relay,
    assertion or value error, and with nothing written otherwise. *)
Theorem command_outcome (w : World) :
  tx_status_of w ≠ TxPending ->
  (node_status_of w = Running ->
     command_effect [node_quit_call] (quit_answer (relay w)) w (stop w)) /\
  (node_status_of w = Running ->
     command_effect [node_pause_call] (pause_answer (relay w)) w (pause w)) /\
  (node_status_of w = Paused ->
     command_effect [node_resume_call] (resume_answer (relay w)) w (resume w)).
Proof.
  unfold tx_status_of, node_status_of. intros Htx.
  repeat split; intros Hn.
  all: unfold command_effect, stop, pause, resume, bind at 1.
  all: match goal with
       | |- context [_wrap_tx_error ?b ?w0] =>
           destruct (b w0) as [[[] | e |] wb] eqn:Eb;
           [ | destruct (wrap_tx_error_raise b w0 e wb Eb)
                 as (w'' & Hw & Hc & Hp & Hs & Hl); rewrite Hw
             | ];
           unfold _wrap_tx_error; try rewrite Eb;
           unfold bind, get_node_state, get_tx_state, assert_,
             relay_node_quit, relay_node_pause, relay_node_resume,
             relay_command in Eb;
           simpl in Eb; rewrite Hn in Eb;
           rewrite (bool_decide_eq_true_2 _ Htx) in Eb; simpl in Eb
       end.
  all: match type of Eb with
       | context [match ?a with _ => _ end] => destruct a as [e' |] eqn:Ea
       end; simpl in Eb; inversion Eb; subst; clear Eb; simpl.
  all: try (rewrite Hc, Hp, Hs, Hl; simpl).
  all: repeat split; eauto using app_nil_r.
Qed.

Lemma command_outcome_witness :
  let e := RelayError "relay is not reachable" in
  let w := Examples.with_relay (Examples.refusing_relay [] 0 e)
             (Examples.world Running TxNone [] 0) in
  fst (stop w) = Raise e /\
  cache_writes (snd (stop w)) = [set_tx_state_call TxError "relay is not reachable"] /\
  relay_calls (snd (stop w)) = [node_quit_call].
Proof.
  intros e w.
  destruct (command_outcome w) as (Hstop & _); [discriminate |].
  specialize (Hstop eq_refl). unfold command_effect in Hstop.
  destruct (stop w) as [r w'].
  destruct Hstop as (Hr & Hc & _ & _ & Hl).
  repeat split; assumption.
Defined.

(** [start] on a stopped node that holds the stake, for a stake whose
    value in wei is within the bounds of [Web3.to_wei]: the balance is
    asked for first, then one join request is sent, with the version
    numbers joined by dots, the ids of the downloaded models and the
    configured stake in wei; what the relay answers to it decides between
    transaction status [Pending] and the recorded error. *)
Theorem start_join_request gpu_name gpu_vram version (w : World) balance :
  node_status_of w = Stopped ->
  tx_status_of w ≠ TxPending ->
  0 <= config_staking_amount w * 10 ^ 18 <= 2 ^ 256 - 1 ->
  balance_answer (relay w) = inr balance ->
  config_staking_amount w * 10 ^ 18 <= balance ->
  command_effect
    [get_balance_call;
     node_join_call gpu_name gpu_vram (version_string version)
                    (download_model_ids w) (config_staking_amount w * 10 ^ 18)]
    (join_answer (relay w)) w
    (start gpu_name gpu_vram version w).
Proof.
  unfold tx_status_of, node_status_of. intros Hn Htx Hrange Hb Hle.
  assert (Hwei : forall w1, to_wei (config_staking_amount w) w1 =
                            (Return (config_staking_amount w * 10 ^ 18), w1))
    by (intros w1; apply to_wei_in_range; exact Hrange).
  unfold command_effect, start, bind at 1.
  match goal with
  | |- context [_wrap_tx_error ?b ?w0] =>
      destruct (b w0) as [[[] | e |] wb] eqn:Eb;
      [ | destruct (wrap_tx_error_raise b w0 e wb Eb)
            as (w'' & Hw & Hc & Hp & Hs & Hl); rewrite Hw
        | ];
      unfold _wrap_tx_error; try rewrite Eb;
      unfold bind, get_node_state, get_tx_state, assert_, get_staking_amount,
        relay_get_balance, load_all_model_ids, relay_node_join,
        relay_command, to_wei_ether in Eb;
      simpl in Eb; rewrite Hn in Eb;
      rewrite (bool_decide_eq_true_2 _ Htx) in Eb; simpl in Eb;
      rewrite Hwei in Eb; simpl in Eb;
      rewrite Hb in Eb; simpl in Eb;
      rewrite (proj2 (Z.ltb_ge _ _) Hle) in Eb; simpl in Eb
  end.
  all: destruct (join_answer (relay w)) as [e' |] eqn:Ea;
    simpl in Eb; inversion Eb; subst; clear Eb; simpl.
  all: try (rewrite Hc, Hp, Hs, Hl; simpl).
  all: rewrite <- ?app_assoc; simpl.
  all: repeat split; eauto using app_nil_r.
Qed.

Lemma start_join_request_witness :
  let w := Examples.world Stopped TxNone [] (400 * 10 ^ 18) in
  (exists wait, fst (start "NVIDIA GeForce RTX 4090" 24 [2; 5; 0] w) = Return wait) /\
  relay_calls (snd (start "NVIDIA GeForce RTX 4090" 24 [2; 5; 0] w)) =
    [get_balance_call;
     node_join_call "NVIDIA GeForce RTX 4090" 24 "2.5.0"
                    ["base:crynux-network/sdxl-turbo"] 400000000000000000000] /\
  cache_writes (snd (start "NVIDIA GeForce RTX 4090" 24 [2; 5; 0] w)) =
    [set_tx_state_call TxPending ""].
Proof.
  intros w.
  assert (H := start_join_request "NVIDIA GeForce RTX 4090" 24 [2; 5; 0] w
                 (400 * 10 ^ 18) eq_refl ltac:(discriminate)
                 ltac:(vm_compute; split; discriminate) eq_refl
                 ltac:(reflexivity)).
  unfold command_effect in H.
  destruct (start "NVIDIA GeForce RTX 4090" 24 [2; 5; 0] w) as [r w'].
  destruct H as (Hr & Hc & _ & _ & Hl).
  repeat split; assumption.
Defined.

(** *** Joining and leaving without the user *)

(** [try_start] either writes nothing or finishes: when it raises, the
    cache is as it was before the call, so no error status is recorded;
    when it returns, the cached node status is [Running], [PendingPause]
    or [PendingStop].  It sends a join request at most once, and only
    after the relay reported the node as [QUIT] and a balance that covers
    the stake. *)
Theorem try_start_all_or_nothing gpu_name gpu_vram version (w : World) :
  let (r, w') := try_start gpu_name gpu_vram version w in
  r ≠ Unfinished /\
  (forall e, r = Raise e ->
     state_cache w' = state_cache w /\ cache_writes w' = cache_writes w) /\
  (r = Return tt ->
     node_status_of w' ∈ [Running; PendingPause; PendingStop]) /\
  (forall request,
     request ∈ drop (length (relay_calls w)) (relay_calls w') ->
     request ∉ [node_get_node_info_call; get_balance_call; node_resume_call] ->
     request = node_join_call gpu_name gpu_vram (version_string version)
                 (download_model_ids w) (config_staking_amount w * 10 ^ 18) /\
     exists info balance,
       node_info_answer (relay w) (polls w) = inr info /\
       NodeInfo.status info = QUIT /\
       balance_answer (relay w) = inr balance /\
       config_staking_amount w * 10 ^ 18 <= balance).
Proof.
  destruct (try_start gpu_name gpu_vram version w) as [r w'] eqn:E.
  unfold try_start, _wait_for_running, _get_node_status, bind,
    relay_node_get_node_info, set_node_state, get_staking_amount,
    relay_get_balance, load_all_model_ids, relay_node_join, relay_node_resume,
    relay_command, assert_, set_tx_state, to_wei_ether, raise, ret in E.
  simpl in E.
  assert (Hdrop : forall (l l' : list RelayCall), drop (length l) (l ++ l') = l')
    by (intros l l'; apply drop_app_length).
  assert (Hleaf : forall (w1 : World) (r1 : result unit) calls,
            (r1, w1) = (r, w') ->
            relay_calls w1 = (relay_calls w ++ calls)%list ->
            (forall e, r1 = Raise e ->
               state_cache w1 = state_cache w /\ cache_writes w1 = cache_writes w) ->
            (r1 = Return tt ->
               node_status_of w1 ∈ [Running; PendingPause; PendingStop]) ->
            r1 ≠ Unfinished ->
            (forall request, request ∈ calls ->
               request ∉ [node_get_node_info_call; get_balance_call; node_resume_call] ->
               request = node_join_call gpu_name gpu_vram (version_string version)
                           (download_model_ids w) (config_staking_amount w * 10 ^ 18) /\
               exists info balance,
                 node_info_answer (relay w) (polls w) = inr info /\
                 NodeInfo.status info = QUIT /\
                 balance_answer (relay w) = inr balance /\
                 config_staking_amount w * 10 ^ 18 <= balance) ->
            r ≠ Unfinished /\
            (forall e, r = Raise e ->
               state_cache w' = state_cache w /\ cache_writes w' = cache_writes w) /\
            (r = Return tt ->
               node_status_of w' ∈ [Running; PendingPause; PendingStop]) /\
            (forall request,
               request ∈ drop (length (relay_calls w)) (relay_calls w') ->
               request ∉ [node_get_node_info_call; get_balance_call; node_resume_call] ->
               request = node_join_call gpu_name gpu_vram (version_string version)
                           (download_model_ids w) (config_staking_amount w * 10 ^ 18) /\
               exists info balance,
                 node_info_answer (relay w) (polls w) = inr info /\
                 NodeInfo.status info = QUIT /\
                 balance_answer (relay w) = inr balance /\
                 config_staking_amount w * 10 ^ 18 <= balance)).
  { intros w1 r1 calls Heq Hc He Hr Hu Hq. inversion Heq; subst r1 w1.
    rewrite Hc, Hdrop. tauto. }
  destruct (node_info_answer (relay w) (polls w)) as [e0 | info] eqn:E0;
    simpl in E.
  { eapply (Hleaf _ _ [node_get_node_info_call] E); [reflexivity | | | | ];
      [intros; split; reflexivity | discriminate | discriminate |].
    intros request Hin Hnot. exfalso. apply Hnot.
      repeat (apply elem_of_cons in Hin as [-> | Hin]);
        try (by apply elem_of_nil in Hin); repeat constructor. }
  destruct (NodeInfo.status info) eqn:Es; simpl in E.
  - (* QUIT *)
    destruct (decide (MIN_WEI <= to_wei_ether (config_staking_amount w) <= MAX_WEI))
      as [Hrange | Hrange];
      [rewrite (to_wei_in_range _ _ Hrange) in E
      | rewrite (to_wei_out_of_range _ _ Hrange) in E];
      unfold to_wei_ether in E; simpl in E.
    2: { eapply (Hleaf _ _ [node_get_node_info_call] E);
           [reflexivity | | | | ];
           [intros; split; reflexivity | discriminate | discriminate |].
         intros request Hin Hnot. exfalso. apply Hnot.
         repeat (apply elem_of_cons in Hin as [-> | Hin]);
           try (by apply elem_of_nil in Hin); repeat constructor. }
    destruct (balance_answer (relay w)) as [eb | balance] eqn:Eb; simpl in E.
    { eapply (Hleaf _ _ [node_get_node_info_call; get_balance_call] E);
        [simpl; rewrite <- app_assoc; reflexivity | | | | ];
        [intros; split; reflexivity | discriminate | discriminate |].
      intros request Hin Hnot. exfalso. apply Hnot.
      repeat (apply elem_of_cons in Hin as [-> | Hin]);
        try (by apply elem_of_nil in Hin); repeat constructor. }
    destruct (balance <? config_staking_amount w * 10 ^ 18) eqn:En; simpl in E.
    { eapply (Hleaf _ _ [node_get_node_info_call; get_balance_call] E);
        [simpl; rewrite <- app_assoc; reflexivity | | | | ];
        [intros; split; reflexivity | discriminate | discriminate |].
      intros request Hin Hnot. exfalso. apply Hnot.
      repeat (apply elem_of_cons in Hin as [-> | Hin]);
        try (by apply elem_of_nil in Hin); repeat constructor. }
    apply Z.ltb_ge in En.
    destruct (join_answer (relay w)) as [ej |] eqn:Ej; simpl in E.
    { eapply (Hleaf _ _ [node_get_node_info_call; get_balance_call; _] E);
        [simpl; rewrite <- !app_assoc; reflexivity | | | | ];
        [intros; split; reflexivity | discriminate | discriminate |].
      intros request Hin Hnot.
      repeat (apply elem_of_cons in Hin as [-> | Hin]);
        try (by apply elem_of_nil in Hin);
        try (exfalso; apply Hnot; repeat constructor; fail).
      split; [reflexivity |].
      exists info, balance. repeat split; first [reflexivity | assumption]. }
    destruct (node_info_answer (relay w) (S (polls w))) as [e1 | info1] eqn:E1;
      simpl in E.
    { eapply (Hleaf _ _ [node_get_node_info_call; get_balance_call; _;
                         node_get_node_info_call] E);
        [simpl; rewrite <- !app_assoc; reflexivity | | | | ];
        [intros; split; reflexivity | discriminate | discriminate |].
      intros request Hin Hnot.
      repeat (apply elem_of_cons in Hin as [-> | Hin]);
        try (by apply elem_of_nil in Hin);
        try (exfalso; apply Hnot; repeat constructor; fail).
      split; [reflexivity |].
      exists info, balance. repeat split; first [reflexivity | assumption]. }
    destruct (bool_decide (convert_node_status (NodeInfo.status info1) = Running))
      eqn:Er; simpl in E.
    + apply bool_decide_eq_true_1 in Er.
      eapply (Hleaf _ _ [node_get_node_info_call; get_balance_call; _;
                         node_get_node_info_call] E);
        [simpl; rewrite <- !app_assoc; reflexivity | | | | ];
        [discriminate | | discriminate |].
      * intros _. unfold node_status_of. simpl. rewrite Er. repeat constructor.
      * intros request Hin Hnot.
      repeat (apply elem_of_cons in Hin as [-> | Hin]);
        try (by apply elem_of_nil in Hin);
        try (exfalso; apply Hnot; repeat constructor; fail).
      split; [reflexivity |].
      exists info, balance. repeat split; first [reflexivity | assumption].
    + eapply (Hleaf _ _ [node_get_node_info_call; get_balance_call; _;
                         node_get_node_info_call] E);
        [simpl; rewrite <- !app_assoc; reflexivity | | | | ];
        [intros; split; reflexivity | discriminate | discriminate |].
      intros request Hin Hnot.
      repeat (apply elem_of_cons in Hin as [-> | Hin]);
        try (by apply elem_of_nil in Hin);
        try (exfalso; apply Hnot; repeat constructor; fail).
      split; [reflexivity |].
      exists info, balance. repeat split; first [reflexivity | assumption].
  - (* AVAILABLE *)
    eapply (Hleaf _ _ [node_get_node_info_call] E); [reflexivity | | | | ];
      [discriminate | | discriminate |].
    + intros _. unfold node_status_of. simpl. repeat constructor.
    + intros request Hin Hnot. exfalso. apply Hnot.
      repeat (apply elem_of_cons in Hin as [-> | Hin]);
        try (by apply elem_of_nil in Hin); repeat constructor.
  - (* BUSY *)
    eapply (Hleaf _ _ [node_get_node_info_call] E); [reflexivity | | | | ];
      [discriminate | | discriminate |].
    + intros _. unfold node_status_of. simpl. repeat constructor.
    + intros request Hin Hnot. exfalso. apply Hnot.
      repeat (apply elem_of_cons in Hin as [-> | Hin]);
        try (by apply elem_of_nil in Hin); repeat constructor.
  - (* PENDING_PAUSE *)
    eapply (Hleaf _ _ [node_get_node_info_call] E); [reflexivity | | | | ];
      [discriminate | | discriminate |].
    + intros _. unfold node_status_of. simpl. repeat constructor.
    + intros request Hin Hnot. exfalso. apply Hnot.
      repeat (apply elem_of_cons in Hin as [-> | Hin]);
        try (by apply elem_of_nil in Hin); repeat constructor.
  - (* PENDING_QUIT *)
    eapply (Hleaf _ _ [node_get_node_info_call] E); [reflexivity | | | | ];
      [discriminate | | discriminate |].
    + intros _. unfold node_status_of. simpl. repeat constructor.
    + intros request Hin Hnot. exfalso. apply Hnot.
      repeat (apply elem_of_cons in Hin as [-> | Hin]);
        try (by apply elem_of_nil in Hin); repeat constructor.
  - (* PAUSED *)
    destruct (resume_answer (relay w)) as [ej |] eqn:Ej; simpl in E.
    { eapply (Hleaf _ _ [node_get_node_info_call; node_resume_call] E);
        [simpl; rewrite <- !app_assoc; reflexivity | | | | ];
        [intros; split; reflexivity | discriminate | discriminate |].
      intros request Hin Hnot. exfalso. apply Hnot.
      repeat (apply elem_of_cons in Hin as [-> | Hin]);
        try (by apply elem_of_nil in Hin); repeat constructor. }
    destruct (node_info_answer (relay w) (S (polls w))) as [e1 | info1] eqn:E1;
      simpl in E.
    { eapply (Hleaf _ _ [node_get_node_info_call; node_resume_call;
                         node_get_node_info_call] E);
        [simpl; rewrite <- !app_assoc; reflexivity | | | | ];
        [intros; split; reflexivity | discriminate | discriminate |].
      intros request Hin Hnot. exfalso. apply Hnot.
      repeat (apply elem_of_cons in Hin as [-> | Hin]);
        try (by apply elem_of_nil in Hin); repeat constructor. }
    destruct (bool_decide (convert_node_status (NodeInfo.status info1) = Running))
      eqn:Er; simpl in E.
    + apply bool_decide_eq_true_1 in Er.
      eapply (Hleaf _ _ [node_get_node_info_call; node_resume_call;
                         node_get_node_info_call] E);
        [simpl; rewrite <- !app_assoc; reflexivity | | | | ];
        [discriminate | | discriminate |].
      * intros _. unfold node_status_of. simpl. rewrite Er. repeat constructor.
      * intros request Hin Hnot. exfalso. apply Hnot.
      repeat (apply elem_of_cons in Hin as [-> | Hin]);
        try (by apply elem_of_nil in Hin); repeat constructor.
    + eapply (Hleaf _ _ [node_get_node_info_call; node_resume_call;
                         node_get_node_info_call] E);
        [simpl; rewrite <- !app_assoc; reflexivity | | | | ];
        [intros; split; reflexivity | discriminate | discriminate |].
      intros request Hin Hnot. exfalso. apply Hnot.
      repeat (apply elem_of_cons in Hin as [-> | Hin]);
        try (by apply elem_of_nil in Hin); repeat constructor.
Qed.

Lemma observe_all_relay_calls l : forall pending w,
  relay_calls (observe_all l pending w) =
    (relay_calls w ++ replicate (length l) node_get_node_info_call)%list.
Proof.
  induction l as [| s l IH]; intros pending w; simpl.
  - rewrite app_nil_r. reflexivity.
  - rewrite IH. unfold observe. destruct pending; simpl;
      rewrite <- app_assoc; reflexivity.
Qed.

(** The loop of [_wait_for_stop] on [k] pending statuses followed by the
    status [last]. *)
Lemma wait_for_stop_run w k last fuel :
  (forall i, (i < k)%nat ->
     exists info, node_info_answer (relay w) (polls w + i) = inr info /\
                  NodeInfo.status info = PENDING_QUIT) ->
  node_info_answer (relay w) (polls w + k) = inr last ->
  NodeInfo.status last ≠ PENDING_QUIT ->
  (k < fuel)%nat ->
  _wait_for_stop fuel w =
    if bool_decide (NodeInfo.status last = QUIT)
    then (Return tt, observe_all (replicate k PendingStop ++ [Stopped]) true w)
    else (Raise (AssertionError "Node status on chain is not stopped or pending."),
          with_relay_call (observe_all (replicate k PendingStop) true w)
            node_get_node_info_call (S (polls w + k))).
Proof.
  intros Hpending Hlast Hnp Hlt.
  set (wk := observe_all (replicate k PendingStop) true w).
  assert (Hans : node_info_answer (relay wk) (polls wk) = inr last).
  { unfold wk. rewrite observe_all_relay, observe_all_polls, length_replicate.
    exact Hlast. }
  unfold _wait_for_stop.
  replace fuel with (k + S (fuel - S k))%nat by lia.
  rewrite wait_for_stop_loop_prefix by exact Hpending.
  fold wk. case_bool_decide as Hq.
  - rewrite (wait_for_stop_loop_stopped _ _ _ _ Hans Hq).
    rewrite observe_all_app. simpl. rewrite replicate_pending_flag. reflexivity.
  - rewrite (wait_for_stop_loop_illegal _ _ _ _ Hans).
    + unfold wk at 2. rewrite observe_all_polls, length_replicate. reflexivity.
    + destruct (NodeInfo.status last); simpl; try congruence;
        intros Hin; repeat (apply elem_of_cons in Hin as [Hin | Hin];
                            [discriminate |]);
        inversion Hin.
Qed.

(** [try_stop] on a node that the relay reports as [AVAILABLE] and that
    then passes [k] times through the pending status: the quit request is
    sent once and the transaction status is set to [Pending] before the
    first poll.  When the status after the pending ones is [QUIT], the
    call returns and its last write sets the transaction status to
    [Success].  When it is any other status the assertion error leaves
    [try_stop] without being recorded: the transaction status stays
    [Pending] if this was the first poll and [Success] otherwise, and no
    [Error] is written. *)
Theorem try_stop_outcome (w : World) first k last fuel :
  node_info_answer (relay w) (polls w) = inr first ->
  NodeInfo.status first = AVAILABLE ->
  quit_answer (relay w) = None ->
  (forall i, (i < k)%nat ->
     exists info, node_info_answer (relay w) (S (polls w) + i) = inr info /\
                  NodeInfo.status info = PENDING_QUIT) ->
  node_info_answer (relay w) (S (polls w) + k) = inr last ->
  NodeInfo.status last ≠ PENDING_QUIT ->
  (k < fuel)%nat ->
  exists r w',
    try_stop fuel w = (r, w') /\
    relay_calls w' =
      (relay_calls w ++ [node_get_node_info_call; node_quit_call] ++
       replicate (S k) node_get_node_info_call)%list /\
    (NodeInfo.status last = QUIT ->
       r = Return tt /\
       node_status_of w' = Stopped /\
       tx_state (state_cache w') = TxState.mk TxSuccess "" /\
       cache_writes w' =
         (cache_writes w ++ [set_tx_state_call TxPending ""] ++
          wait_writes (replicate k PendingStop ++ [Stopped]) ++
          [set_tx_state_call TxSuccess ""])%list) /\
    (NodeInfo.status last ≠ QUIT ->
       r = Raise (AssertionError "Node status on chain is not stopped or pending.") /\
       tx_status_of w' = match k with O => TxPending | _ => TxSuccess end /\
       cache_writes w' =
         (cache_writes w ++ [set_tx_state_call TxPending ""] ++
          wait_writes (replicate k PendingStop))%list).
Proof.
  intros Hfirst Hav Hquit Hpending Hlast Hnp Hlt.
  set (w3 := snd (set_tx_state TxPending ""
                    (with_relay_call
                       (with_relay_call w node_get_node_info_call (S (polls w)))
                       node_quit_call (S (polls w))))).
  assert (Hwait := wait_for_stop_run w3 k last fuel Hpending Hlast Hnp Hlt).
  assert (Hstop : try_stop fuel w =
                  (_wait_for_stop fuel ;; set_tx_state TxSuccess "") w3).
  { unfold try_stop, bind at 1, relay_node_get_node_info. rewrite Hfirst.
    rewrite Hav. simpl.
    unfold bind at 1, relay_node_quit, relay_command. simpl. rewrite Hquit.
    reflexivity. }
  rewrite Hstop. unfold bind. rewrite Hwait.
  case_bool_decide as Hq.
  - eexists _, _. split; [reflexivity |].
    split; [| split; [intros _ | intros Hc; contradiction]].
    + simpl. rewrite observe_all_relay_calls, length_app, length_replicate.
      simpl. rewrite <- !app_assoc. simpl.
      replace (k + 1)%nat with (S k) by lia. reflexivity.
    + split; [reflexivity |]. split.
      { unfold node_status_of. simpl. apply observe_all_node_status. }
      split; [reflexivity |].
      simpl. rewrite observe_all_writes. simpl.
      rewrite <- !app_assoc. reflexivity.
  - eexists _, _. split; [reflexivity |].
    split; [| split; [intros Hc; contradiction | intros _]].
    + simpl. rewrite observe_all_relay_calls, length_replicate.
      simpl. rewrite <- !app_assoc. simpl.
      f_equal. f_equal. f_equal.
      change (replicate k node_get_node_info_call ++ [node_get_node_info_call])%list
        with (replicate k node_get_node_info_call ++
              replicate 1 node_get_node_info_call)%list.
      rewrite <- replicate_add. replace (k + 1)%nat with (S k) by lia. reflexivity.
    + split; [reflexivity |]. split.
      * unfold tx_status_of. simpl. destruct k as [| k]; [reflexivity |].
        rewrite observe_all_tx_state by discriminate. reflexivity.
      * simpl. rewrite observe_all_writes. simpl.
        rewrite <- !app_assoc. reflexivity.
Qed.

Lemma try_stop_outcome_witness :
  let w := Examples.world Running TxNone [AVAILABLE; BUSY] 0 in
  exists r w',
    try_stop 3 w = (r, w') /\
    r = Raise (AssertionError "Node status on chain is not stopped or pending.") /\
    tx_status_of w' = TxPending /\
    cache_writes w' = [set_tx_state_call TxPending ""].
Proof.
  intros w.
  destruct (try_stop_outcome w (Examples.info AVAILABLE 1%float) 0
              (Examples.info BUSY 1%float) 3)
    as (r & w' & Hrun & _ & _ & Hfail);
    [reflexivity | reflexivity | reflexivity | intros i Hi; lia | reflexivity
     | discriminate | lia |].
  destruct Hfail as (Hr & Ht & Hw); [discriminate |].
  exists r, w'. repeat split; assumption.
Defined.

(** [try_stop] asks a node to leave only when the relay reports it as
    [AVAILABLE]: for every other status it returns after the one status
    request, with the cache untouched. *)
Theorem try_stop_only_available fuel (w : World) info :
  node_info_answer (relay w) (polls w) = inr info ->
  let (r, w') := try_stop fuel w in
  (node_quit_call ∈ relay_calls w' -> node_quit_call ∉ relay_calls w ->
     NodeInfo.status info = AVAILABLE) /\
  (NodeInfo.status info ≠ AVAILABLE ->
     r = Return tt /\
     state_cache w' = state_cache w /\
     cache_writes w' = cache_writes w /\
     relay_calls w' = (relay_calls w ++ [node_get_node_info_call])%list).
Proof.
  intros Ha.
  destruct (try_stop fuel w) as [r w'] eqn:E.
  unfold try_stop, bind at 1, relay_node_get_node_info in E. rewrite Ha in E.
  destruct (NodeInfo.status info) eqn:Es; simpl in E.
  2: { split; [reflexivity | intros Hc; contradiction]. }
  all: inversion E; subst; clear E; simpl.
  all: split; [intros Hin Hnot; exfalso;
               apply elem_of_app in Hin as [Hin | Hin]; [exact (Hnot Hin) |];
               apply list_elem_of_singleton in Hin; discriminate |].
  all: intros _; repeat split; reflexivity.
Qed.

Lemma try_stop_only_available_witness :
  let w := Examples.world Running TxNone [BUSY] 0 in
  fst (try_stop 3 w) = Return tt /\
  relay_calls (snd (try_stop 3 w)) = [node_get_node_info_call].
Proof.
  intros w.
  assert (H := try_stop_only_available 3 w (Examples.info BUSY 1%float) eq_refl).
  destruct (try_stop 3 w) as [r w'].
  destruct H as (_ & H). destruct H as (Hr & _ & _ & Hc); [discriminate |].
  split; assumption.
Defined.

(** *** The registration of the sync loop *)

(** A tick touches neither the registered scope nor the transaction
    state, however it ends. *)
Lemma sync_tick_keeps w r w' :
  sync_tick w = (r, w') ->
  _cancel_scope w' = _cancel_scope w /\
  tx_state (state_cache w') = tx_state (state_cache w) /\
  relay w' = relay w.
Proof.
  unfold sync_tick, bind, relay_node_get_node_info, get_node_state.
  destruct (node_info_answer (relay w) (polls w)) as [e | info]; simpl.
  - intros H. inversion H. repeat split.
  - destruct (bool_decide _); simpl; intros H; inversion H; repeat split.
Qed.

Lemma start_sync_loop_keeps n : forall w r w',
  start_sync_loop n w = (r, w') ->
  _cancel_scope w' = _cancel_scope w /\
  tx_state (state_cache w') = tx_state (state_cache w).
Proof.
  induction n as [| n IH]; intros w r w' H.
  - simpl in H. inversion H. split; reflexivity.
  - change (start_sync_loop (S n) w) with ((sync_tick ;; start_sync_loop n) w) in H.
    unfold bind in H.
    destruct (sync_tick w) as [[[] | e |] w1] eqn:E;
      destruct (sync_tick_keeps _ _ _ E) as (Hs & Ht & _).
    + destruct (IH _ _ _ H) as (Hs' & Ht'). split; congruence.
    + inversion H; subst. split; assumption.
    + inversion H; subst. split; assumption.
Qed.

(** The tick at which the relay fails ends the loop, whatever the number
    of ticks that would have followed. *)
Lemma start_sync_loop_fails n : forall w wn w' e m,
  start_sync_loop n w = (Unfinished, wn) ->
  sync_tick wn = (Raise e, w') ->
  start_sync_loop (n + S m) w = (Raise e, w').
Proof.
  induction n as [| n IH]; intros w wn w' e m H Ht.
  - simpl in H. inversion H; subst.
    change (start_sync_loop (0 + S m) wn) with ((sync_tick ;; start_sync_loop m) wn).
    unfold bind. rewrite Ht. reflexivity.
  - change (start_sync_loop (S n) w) with ((sync_tick ;; start_sync_loop n) w) in H.
    change (start_sync_loop (S n + S m) w)
      with ((sync_tick ;; start_sync_loop (n + S m)) w).
    unfold bind in *.
    destruct (sync_tick w) as [[[] | e1 |] w1] eqn:E; try discriminate.
    + eapply IH; eassumption.
    + exfalso. exact (sync_tick_finishes _ _ E).
Qed.

(** [start_sync] on a manager that is not synchronizing, with a relay that
    answers [k] status requests and fails the next one with [e].  While
    the loop runs a scope that was not cancelled is registered, and a
    second [start_sync] is refused with the assertion error and changes
    nothing.  The failed request ends the loop with [e]; the registration
    is cleared on the way out, and the transaction state is never written,
    so the failure is not recorded there. *)
Theorem start_sync_registration (w : World) k e (infos : nat -> NodeInfo.t) :
  _cancel_scope w = None ->
  (forall i, (i < k)%nat -> node_info_answer (relay w) (polls w + i) = inr (infos i)) ->
  node_info_answer (relay w) (polls w + k) = inl e ->
  (forall ticks, (ticks <= k)%nat ->
     exists w',
       start_sync ticks w = (Unfinished, w') /\
       _cancel_scope w' = Some {| cancel_called := false |} /\
       tx_state (state_cache w') = tx_state (state_cache w) /\
       forall ticks',
         start_sync ticks' w' =
           (Raise (AssertionError "NodeStateManager has started synchronizing."), w')) /\
  (forall ticks, (k < ticks)%nat ->
     exists w',
       start_sync ticks w = (Raise e, w') /\
       _cancel_scope w' = None /\
       tx_state (state_cache w') = tx_state (state_cache w) /\
       polls w' = (polls w + S k)%nat).
Proof.
  intros Hs Hans Hfail.
  set (ws := snd (set_cancel_scope (Some {| cancel_called := false |}) w)).
  split.
  - intros ticks Hle.
    destruct (start_sync_loop_ticks ticks ws infos) as (wn & Hloop & _ & _).
    { intros i Hi. apply Hans. lia. }
    destruct (start_sync_loop_keeps _ _ _ _ Hloop) as (Hsc & Htx).
    exists wn. split; [apply start_sync_running; assumption |].
    split; [exact Hsc |]. split; [exact Htx |].
    intros ticks'. unfold start_sync. rewrite Hsc. reflexivity.
  - intros ticks Hlt.
    destruct (start_sync_loop_ticks k ws infos) as (wk & Hloop & Hp & Hr).
    { intros i Hi. apply Hans. lia. }
    destruct (sync_tick wk) as [r w1] eqn:Et.
    assert (Hr1 : r = Raise e /\ polls w1 = S (polls w + k)).
    { unfold sync_tick, bind, relay_node_get_node_info in Et.
      rewrite Hr, Hp in Et. simpl in Et. rewrite Hfail in Et.
      inversion Et. split; reflexivity. }
    destruct Hr1 as (-> & Hp1).
    assert (Hrun : start_sync_loop ticks ws = (Raise e, w1)).
    { replace ticks with (k + S (ticks - S k))%nat by lia.
      eapply start_sync_loop_fails; eassumption. }
    destruct (start_sync_loop_keeps _ _ _ _ Hrun) as (_ & Htx).
    exists (snd (set_cancel_scope None w1)).
    split.
    { unfold start_sync. rewrite Hs. unfold bind. simpl.
      unfold ws in Hrun. simpl in Hrun. rewrite Hrun. reflexivity. }
    split; [reflexivity |].
    split; [exact Htx |].
    simpl. rewrite Hp1. lia.
Qed.

Lemma start_sync_registration_witness :
  let e := RelayError "relay is not reachable" in
  let w := Examples.with_relay (Examples.dropping_relay [AVAILABLE; BUSY] e)
             (Examples.world Stopped TxNone [] 0) in
  exists w',
    start_sync 5 w = (Raise e, w') /\
    _cancel_scope w' = None /\
    tx_state (state_cache w') = TxState.mk TxNone "" /\
    polls w' = 3%nat.
Proof.
  intros e w.
  destruct (start_sync_registration w 2 e
              (fun i => Examples.info (nth i [AVAILABLE; BUSY] QUIT) 1%float))
    as (_ & H).
  - reflexivity.
  - intros i Hi. destruct i as [| [| i]]; [reflexivity | reflexivity | lia].
  - reflexivity.
  - destruct (H 5%nat ltac:(lia)) as (w' & Hrun & Hs & Ht & Hp).
    exists w'. repeat split; assumption.
Defined.

(** * Further properties of the connection pool *)

(** *** A guard is held by one task at a time *)

Lemma held_subset id s s' :
  held id s ->
  (_next_id s <= _next_id s')%nat ->
  (forall x, x ∈ _idle_pool s' -> x ∈ _idle_pool s) ->
  held id s'.
Proof.
  unfold held. intros (Hi & Hn) Hle Hsub. split; [| lia].
  intros Hin. apply Hi, Hsub, Hin.
Qed.

Lemma held_on_guard_idle id id' s :
  id' ≠ id -> held id s -> held id (on_guard_idle id' s).
Proof.
  intros Hne (Hi & Hn).
  destruct (on_guard_idle_fields id' s) as (_ & _ & Hn' & _ & _ & Hi').
  unfold held. rewrite Hn', Hi'. split; [| exact Hn].
  case_bool_decide; [| exact Hi].
  intros Hin. apply deque_append_subset in Hin as [Hin | Hin];
    [contradiction | congruence].
Qed.

Lemma held_on_guard_close id id' s : held id s -> held id (on_guard_close id' s).
Proof.
  intros H. destruct (on_guard_close_fields id' s) as (_ & _ & Hn & _ & _ & _ & _ & Hi).
  eapply held_subset; [exact H | rewrite Hn; lia |].
  intros x Hx. rewrite Hi in Hx. case_bool_decide; [| exact Hx].
  eapply deque_remove_subset. exact Hx.
Qed.

Lemma held_guard_close id id' s : held id s -> held id (guard_close id' s).
Proof.
  intros H. destruct (guard_close_fields id' s) as (_ & Hn & _ & _ & _ & Hin & Hout).
  destruct (decide (id' ∈ closed_guards s)) as [Hc | Hc].
  - rewrite (Hin Hc). exact H.
  - destruct (Hout Hc) as (_ & _ & Hi).
    eapply held_subset; [exact H | rewrite Hn; lia |].
    intros x Hx. rewrite Hi in Hx. case_bool_decide; [| exact Hx].
    eapply deque_remove_subset. exact Hx.
Qed.

Lemma held_get_wait id task s r s' :
  held id s -> get_wait task s = (r, s') -> held id s'.
Proof.
  intros H Hw. destruct (get_wait_fields _ _ _ _ Hw) as (_ & _ & Hn & _ & _ & Hi & _).
  eapply held_subset; [exact H | rewrite Hn; lia |].
  intros x Hx. destruct Hi as [Hi | Hi]; rewrite Hi in Hx; [exact Hx |].
  destruct (_idle_pool s); [exact Hx |]. apply elem_of_cons. right. exact Hx.
Qed.

Lemma held_get_locked id task connect s r s' :
  held id s -> get_locked task connect s = (r, s') -> held id s'.
Proof.
  intros H Hg.
  destruct (get_locked_cases _ _ _ _ _ Hg)
    as [(_ & _ & _ & _ & _ & _ & Hn & _ & _ & Hi) | [(_ & _ & e & _ & _ & ->) | [_ Hw]]].
  - eapply held_subset; [exact H | rewrite Hn; lia | rewrite Hi; auto].
  - exact H.
  - eapply held_get_wait; eassumption.
Qed.

Lemma held_close_guards id ids : forall s,
  held id s -> held id (foldl (fun s' id' => guard_close id' s') s ids).
Proof.
  induction ids as [| id' ids IH]; intros s H; simpl; [exact H |].
  apply IH, held_guard_close, H.
Qed.

Lemma held_step id o s :
  released o ≠ Some id -> held id s -> held id (step o s).
Proof.
  intros Hrel H.
  destruct o as [task connect | task connect | task | id' | id' | id' | id' exc | |];
    simpl in *.
  - unfold get. destruct (_closed s); [exact H |].
    destruct (get_locked task connect s) as [r s'] eqn:E.
    eapply held_get_locked; eassumption.
  - destruct (get_locked task connect s) as [r s'] eqn:E.
    eapply held_get_locked; eassumption.
  - unfold get_resume. case_bool_decide; [| exact H].
    destruct (get_wait task _) as [r s'] eqn:E.
    eapply held_get_wait; [| exact E]. exact H.
  - apply held_on_guard_idle; [congruence | exact H].
  - apply held_on_guard_close, H.
  - apply held_guard_close, H.
  - unfold __aexit__. destruct exc as [e |]; [destruct (is_ConnectionClosed e) |];
      simpl; first [apply held_guard_close, H
                   | apply held_on_guard_idle; [congruence | exact H]].
  - exact H.
  - rewrite close_alone. destruct (negb (_closed s)); [| exact H].
    apply (held_close_guards _ _ s H).
Qed.

Lemma held_run id ops : forall s,
  Forall (fun o => released o ≠ Some id) ops -> held id s -> held id (run ops s).
Proof.
  induction ops as [| o ops IH]; intros s Hall H; simpl; [exact H |].
  inversion Hall; subst. apply IH; [assumption |]. apply held_step; assumption.
Qed.

(** From a fresh pool, and as long as no guard is released while it is in
    the idle queue: a guard that was handed to a task is handed to no
    other task until it is released, whatever else happens to the pool in
    between. *)
Theorem guard_held_exclusively s0 ops guard s' ops' guard' s'' :
  fresh s0 ->
  released_once ops s0 ->
  acquires (run ops s0) guard s' ->
  Forall (fun o => released o ≠ Some (_id guard)) ops' ->
  acquires (run ops' s') guard' s'' ->
  _id guard' ≠ _id guard.
Proof.
  intros Hfresh Honce Hacq Hnorel Hacq'.
  assert (Hwf : wf (run ops s0)) by (apply wf_run, wf_fresh, Hfresh).
  assert (Hidle : idle_ok (run ops s0))
    by (apply idle_ok_run; [apply idle_ok_fresh, Hfresh | exact Honce]).
  assert (Hwf' : wf s').
  { destruct Hacq as [(task & connect & Hg) | [(task & connect & Hg) | (task & Hg)]].
    - eapply wf_get; eassumption.
    - eapply wf_get_locked; eassumption.
    - eapply wf_get_resume; eassumption. }
  assert (Hheld : held (_id guard) s').
  { destruct (acquires_cases _ _ _ Hwf Hacq)
      as [(rest & Hi & Hi' & Hl & _) | (Hnil & _ & Hid & _ & _)].
    - destruct Hidle as (Hnd & _). rewrite Hi in Hnd.
      apply NoDup_cons in Hnd as (Hnotin & _).
      split; [rewrite Hi'; exact Hnotin |].
      destruct Hwf' as (_ & _ & Hids & _).
      destruct Hwf as (_ & _ & Hids0 & _).
      destruct (Hids0 _ _ Hl) as (_ & Hlt).
      destruct Hacq as [(task & connect & Hg) | [(task & connect & Hg) | (task & Hg)]].
      + unfold get in Hg. destruct (_closed (run ops s0)); [discriminate |].
        destruct (get_locked_cases _ _ _ _ _ Hg)
          as [(_ & _ & _ & _ & _ & _ & Hn & _) | [(_ & _ & e & _ & Hr & _) | [_ Hw]]];
          [lia | discriminate |].
        destruct (get_wait_fields _ _ _ _ Hw) as (_ & _ & Hn & _). lia.
      + destruct (get_locked_cases _ _ _ _ _ Hg)
          as [(_ & _ & _ & _ & _ & _ & Hn & _) | [(_ & _ & e & _ & Hr & _) | [_ Hw]]];
          [lia | discriminate |].
        destruct (get_wait_fields _ _ _ _ Hw) as (_ & _ & Hn & _). lia.
      + unfold get_resume in Hg. case_bool_decide; [| discriminate].
        destruct (get_wait_fields _ _ _ _ Hg) as (_ & _ & Hn & _).
        simpl in Hn. lia.
    - assert (Hin : _id guard ∈ dom (_guards s')).
      { destruct (acquires_cases _ _ _ Hwf Hacq)
          as [(rest & Hi & _) | (_ & _ & _ & _ & Hg')].
        - rewrite Hnil in Hi. discriminate.
        - rewrite Hg', dom_insert_L. set_solver. }
      apply elem_of_dom in Hin as (g & Hg).
      destruct Hwf' as (_ & _ & Hids & _). destruct (Hids _ _ Hg) as (_ & Hlt).
      split; [| exact Hlt].
      destruct Hacq as [(task & connect & Hg0) | [(task & connect & Hg0) | (task & Hg0)]].
      + unfold get in Hg0. destruct (_closed (run ops s0)); [discriminate |].
        destruct (get_locked_cases _ _ _ _ _ Hg0)
          as [(_ & _ & _ & _ & _ & _ & _ & _ & _ & Hi) | [(_ & _ & e & _ & Hr & _) | [_ Hw]]];
          [rewrite Hi, Hnil; apply not_elem_of_nil | discriminate |].
        destruct (get_wait_fields _ _ _ _ Hw) as (_ & _ & _ & _ & _ & Hi & _).
        rewrite Hnil in Hi. destruct Hi as [-> | ->]; apply not_elem_of_nil.
      + destruct (get_locked_cases _ _ _ _ _ Hg0)
          as [(_ & _ & _ & _ & _ & _ & _ & _ & _ & Hi) | [(_ & _ & e & _ & Hr & _) | [_ Hw]]];
          [rewrite Hi, Hnil; apply not_elem_of_nil | discriminate |].
        destruct (get_wait_fields _ _ _ _ Hw) as (_ & _ & _ & _ & _ & Hi & _).
        rewrite Hnil in Hi. destruct Hi as [-> | ->]; apply not_elem_of_nil.
      + unfold get_resume in Hg0. case_bool_decide; [| discriminate].
        destruct (get_wait_fields _ _ _ _ Hg0) as (_ & _ & _ & _ & _ & Hi & _).
        simpl in Hi. rewrite Hnil in Hi.
        destruct Hi as [-> | ->]; apply not_elem_of_nil. }
  assert (Hheld' : held (_id guard) (run ops' s')) by (apply held_run; assumption).
  assert (Hwf'' : wf (run ops' s')) by (apply wf_run, Hwf').
  destruct Hheld' as (Hnotin & Hlt).
  destruct (acquires_cases _ _ _ Hwf'' Hacq')
    as [(rest & Hi & _) | (_ & _ & Hid & _)].
  - intros Heq. apply Hnotin. rewrite Hi, Heq. apply elem_of_cons. left. reflexivity.
  - lia.
Qed.

Lemma guard_held_exclusively_witness :
  let guard := {| _id := 1; guard_type := HTTP |} in
  let guard' := {| _id := 2; guard_type := HTTP |} in
  let s := run [Get 5 None; Exit 1 None] (Examples.pool_after 2 []) in
  let s' := snd (get 1 None s) in
  let s2 := run [Get 2 None; Exit 2 None] s' in
  fst (get 1 None s) = Return guard /\
  fst (get 3 None s2) = Return guard' /\
  _id guard' ≠ _id guard.
Proof.
  intros guard guard' s s' s2.
  assert (H1 : get 1 None s = (Return guard, s')) by (vm_compute; reflexivity).
  assert (H2 : get 3 None s2 = (Return guard', snd (get 3 None s2)))
    by (vm_compute; reflexivity).
  split; [rewrite H1; reflexivity |]. split; [rewrite H2; reflexivity |].
  refine (guard_held_exclusively (Examples.pool_after 2 [])
            [Get 5%nat None; Exit 1%nat None] guard s'
            [Get 2%nat None; Exit 2%nat None] guard' (snd (get 3 None s2))
            example_pool_fresh _ _ _ _).
  - vm_compute. repeat split; apply not_elem_of_nil.
  - left. exists 1%nat, None. exact H1.
  - repeat (constructor; [simpl; congruence |]). constructor.
  - left. exists 3%nat, None. exact H2.
Defined.

(** *** Waiting for a guard *)




(** *** Nonces over several transactions *)





(** *** What the constructor builds *)

(** When the constructor of the pool succeeds, the pool is open and empty.
    An injected provider makes it a pool of one connection of the type
    [Other], whatever size was asked for and whatever the path is;
    without one the size is the one asked for, which is not negative, and
    the path decides the type: [HTTP] when it starts with [http], [WS]
    when it does not and starts with [ws]. *)
Theorem W3Pool_init_outcome api privkey provider provider_path pool_size timeout rps s :
  W3Pool_init api privkey provider provider_path pool_size timeout rps = inr s ->
  fresh s /\
  _provider s = provider /\
  _provider_path s = provider_path /\
  _account s = to_checksum_address api (_pubkey s) /\
  match provider with
  | Some _ => _pool_size s = 1 /\ provider_type s = Other
  | None =>
      _pool_size s = pool_size /\
      exists path,
        provider_path = Some path /\
        (startswith "http" path = true /\ provider_type s = HTTP \/
         startswith "http" path = false /\ startswith "ws" path = true /\
         provider_type s = WS)
  end.
Proof.
  intros H. split; [eapply W3Pool_init_fresh; exact H |].
  unfold W3Pool_init in H.
  destruct (fromhex _) as [e | bytes]; [discriminate |].
  destruct (PrivateKey api bytes) as [e | key]; [discriminate |].
  destruct provider as [p |].
  - simpl in H. inversion H; subst. simpl. repeat split.
  - destruct provider_path as [path |]; [| discriminate].
    destruct (startswith "http" path) eqn:Eh.
    + destruct (pool_size <? 0); [discriminate |].
      inversion H; subst. simpl. repeat split.
      exists path. split; [reflexivity |]. left.
      split; first [assumption | reflexivity].
    + destruct (startswith "ws" path) eqn:Ew; [| discriminate].
      destruct (pool_size <? 0); [discriminate |].
      inversion H; subst. simpl. repeat split.
      exists path. split; [reflexivity |]. right.
      repeat split; first [assumption | reflexivity].
Qed.

Lemma W3Pool_init_outcome_witness :
  exists s,
    W3Pool_init Examples.stub_keys Examples.privkey
      (Some (provider_object "EthereumTesterProvider")) (Some "ftp://node") 8 10 10
      = inr s /\
    _pool_size s = 1 /\ provider_type s = Other.
Proof.
  destruct (W3Pool_init Examples.stub_keys Examples.privkey
              (Some (provider_object "EthereumTesterProvider")) (Some "ftp://node")
              8 10 10) as [e | s] eqn:E; [vm_compute in E; discriminate |].
  exists s. split; [reflexivity |].
  destruct (W3Pool_init_outcome _ _ _ _ _ _ _ _ E) as (_ & _ & _ & _ & Hsize & Htype).
  split; assumption.
Defined.

(** *** Closing a guard twice *)

(** In a pool state that operations can lead to, once a guard is closed
    it is out of the guard table and out of the idle queue, closing it
    again changes nothing, and neither does a late exit of a block that
    still holds it, with or without an exception. *)
Theorem closed_guard_stays_out s id exc_val :
  wf s ->
  idle_ok s ->
  let s' := guard_close id s in
  (id ∉ dom (_guards s')) /\
  (id ∉ _idle_pool s') /\
  (id ∈ closed_guards s') /\
  guard_close id s' = s' /\
  snd (__aexit__ id exc_val s') = s'.
Proof.
  intros Hwf Hidle s'.
  destruct (guard_close_fields id s) as (_ & _ & _ & _ & _ & Hin & Hout).
  fold s' in Hin, Hout.
  assert (Hdead : id ∈ closed_guards s').
  { destruct (decide (id ∈ closed_guards s)) as [Hc | Hc].
    - rewrite (Hin Hc). exact Hc.
    - destruct (Hout Hc) as (_ & Hcg & _). rewrite Hcg. set_solver. }
  assert (Hgone : id ∉ dom (_guards s')).
  { destruct (decide (id ∈ closed_guards s)) as [Hc | Hc].
    - rewrite (Hin Hc). destruct Hwf as (_ & _ & _ & Hlive).
      intros Hd. exact (Hlive _ Hd Hc).
    - destruct (Hout Hc) as (Hg & _ & _). rewrite Hg, dom_delete_L. set_solver. }
  assert (Hnotidle : id ∉ _idle_pool s').
  { destruct Hidle as (Hnd & Hsub).
    destruct (decide (id ∈ closed_guards s)) as [Hc | Hc].
    - intros Hi. apply Hgone. rewrite (Hin Hc) in *. apply Hsub, Hi.
    - destruct (Hout Hc) as (_ & _ & Hi). rewrite Hi.
      case_bool_decide as Hd.
      + apply deque_remove_gone, Hnd.
      + intros Hi'. apply Hd, Hsub, Hi'. }
  assert (Hagain : guard_close id s' = s').
  { unfold guard_close at 1. rewrite (bool_decide_eq_true_2 _ Hdead). reflexivity. }
  assert (Hrelease : on_guard_idle id s' = s').
  { unfold on_guard_idle. rewrite (bool_decide_eq_false_2 _ Hgone). reflexivity. }
  repeat split; try assumption.
  unfold __aexit__. destruct exc_val as [e |]; [destruct (is_ConnectionClosed e) |];
    simpl; assumption.
Qed.

Lemma closed_guard_stays_out_witness :
  let s := run [Get 1 None; Exit 1 None] (Examples.pool_after 2 []) in
  (1%nat ∈ _idle_pool s) /\
  (1%nat ∉ _idle_pool (guard_close 1 s)) /\
  snd (__aexit__ 1 None (guard_close 1 s)) = guard_close 1 s.
Proof.
  intros s.
  assert (Honce : released_once [Get 1%nat None; Exit 1%nat None]
                    (Examples.pool_after 2 [])).
  { vm_compute. repeat split; apply not_elem_of_nil. }
  destruct (closed_guard_stays_out s 1%nat None) as (_ & Hidle & _ & _ & Hexit).
  - apply wf_run, wf_fresh, example_pool_fresh.
  - apply idle_ok_run; [apply idle_ok_fresh, example_pool_fresh | exact Honce].
  - split; [vm_compute; apply list_elem_of_singleton; reflexivity |].
    split; assumption.
Defined.

(** *** The statements above on concrete nodes *)

Lemma convert_node_status_image_witness :
  convert_node_status AVAILABLE = convert_node_status BUSY /\
  convert_node_status PENDING_QUIT ≠ Error.
Proof.
  destruct (convert_node_status_image PENDING_QUIT BUSY) as (_ & Herr & _).
  split; [reflexivity | exact Herr].
Defined.

Lemma try_start_all_or_nothing_witness :
  let w := Examples.world Stopped TxNone [QUIT] 0 in
  fst (try_start "NVIDIA GeForce RTX 4090" 24 [2; 5; 0] w) =
    Raise (ValueError "Node token balance is not enough to join") /\
  state_cache (snd (try_start "NVIDIA GeForce RTX 4090" 24 [2; 5; 0] w)) =
    state_cache w /\
  cache_writes (snd (try_start "NVIDIA GeForce RTX 4090" 24 [2; 5; 0] w)) = [].
Proof.
  intros w.
  assert (Hr : fst (try_start "NVIDIA GeForce RTX 4090" 24 [2; 5; 0] w) =
               Raise (ValueError "Node token balance is not enough to join"))
    by reflexivity.
  assert (H := try_start_all_or_nothing "NVIDIA GeForce RTX 4090" 24 [2; 5; 0] w).
  destruct (try_start "NVIDIA GeForce RTX 4090" 24 [2; 5; 0] w) as [r w'].
  simpl in Hr. destruct H as (_ & Hraise & _).
  destruct (Hraise _ Hr) as (Hs & Hw).
  split; [exact Hr |]. split; [exact Hs | exact Hw].
Defined.

(** *** A stake outside of the bounds of the library *)

(** When the configured stake, in wei, is outside of the bounds of
    [Web3.to_wei], the conversion raises a [ValueError] before the relay
    is asked for the balance.  [start] on a stopped node sends no request
    at all and the error wrapper records the error as transaction status
    [Error]; [try_start] on a node that the relay reports as [QUIT] stops
    after the one status request and leaves the cache as it was. *)
Theorem stake_out_of_range gpu_name gpu_vram version (w : World) :
  ~ (MIN_WEI <= to_wei_ether (config_staking_amount w) <= MAX_WEI) ->
  exists msg,
    (node_status_of w = Stopped -> tx_status_of w ≠ TxPending ->
     exists w',
       start gpu_name gpu_vram version w = (Raise (ValueError msg), w') /\
       relay_calls w' = relay_calls w /\
       node_state (state_cache w') = node_state (state_cache w) /\
       tx_state (state_cache w') = TxState.mk TxError msg /\
       cache_writes w' = (cache_writes w ++ [set_tx_state_call TxError msg])%list) /\
    (forall info,
       node_info_answer (relay w) (polls w) = inr info ->
       NodeInfo.status info = QUIT ->
       exists w',
         try_start gpu_name gpu_vram version w = (Raise (ValueError msg), w') /\
         relay_calls w' = (relay_calls w ++ [node_get_node_info_call])%list /\
         state_cache w' = state_cache w /\
         cache_writes w' = cache_writes w).
Proof.
  intros Hout.
  exists "Resulting wei value must be between 1 and 2**256 - 1".
  split.
  - unfold node_status_of, tx_status_of. intros Hn Ht.
    unfold start, _wrap_tx_error, bind, get_node_state, get_tx_state,
      get_staking_amount.
    simpl. rewrite Hn. rewrite (bool_decide_eq_true_2 _ Ht). simpl.
    rewrite (to_wei_out_of_range _ _ Hout). simpl.
    eexists. split; [reflexivity |]. repeat split.
  - intros info Ha Hs.
    unfold try_start, bind, relay_node_get_node_info, get_staking_amount.
    rewrite Ha. simpl. rewrite Hs. simpl.
    rewrite (to_wei_out_of_range _ _ Hout).
    eexists. split; [reflexivity |]. repeat split.
Qed.

Lemma stake_out_of_range_witness :
  let w := Examples.with_staking (-1) (Examples.world Stopped TxNone [QUIT] 0) in
  exists msg w',
    start "NVIDIA GeForce RTX 4090" 24 [2; 5; 0] w = (Raise (ValueError msg), w') /\
    relay_calls w' = [] /\
    tx_state (state_cache w') = TxState.mk TxError msg.
Proof.
  intros w.
  destruct (stake_out_of_range "NVIDIA GeForce RTX 4090" 24 [2; 5; 0] w)
    as (msg & Hstart & _).
  - vm_compute. intros [Hlo _]. apply Hlo. reflexivity.
  - destruct Hstart as (w' & Hrun & Hc & _ & Ht & _);
      [reflexivity | discriminate |].
    exists msg, w'. split; [exact Hrun |]. split; [exact Hc | exact Ht].
Defined.
